(** * FB2SCI: conversion of two FB-01 sysex banks into an SCI0 patch resource

    A shallow embedding of [FB2SCI.cpp] and the verification of its
    specification.  Bytes are integers (a [char] is represented by its
    8-bit pattern, [0 .. 255]); a [std::vector<char>] is a [list Z]; the
    console, the three files named on the command line and the standard
    input form the [world] that every function threads through. *)

From Stdlib Require Import ZArith Lia Bool.
From stdpp Require Import base option list strings.

(** ** Machine integers and bytes *)

Definition INT_MAX : Z := 2147483647.
Definition EXIT_FAILURE : Z := 1.

(** [static_cast<int>(n)] for an unsigned size [n]: the value modulo 2^32,
    read as a signed 32-bit integer. *)
Definition static_cast_int (n : Z) : Z :=
  ((n + 2147483648) mod 4294967296 - 2147483648)%Z.

(** Conversion of an [int] to [unsigned char]. *)
Definition to_uchar (z : Z) : Z := (z mod 256)%Z.

(** Lines 184-185:
    [((low_byte & 0x0F) << 4) | (high_byte & 0x0F)], stored in an
    [unsigned char].  The low nibble of a [char] does not depend on the
    signedness of [char], since [&] acts on the two's complement pattern. *)
Definition nibble_merge (high_byte low_byte : Z) : Z :=
  to_uchar (Z.lor (Z.shiftl (Z.land low_byte 0x0F) 4) (Z.land high_byte 0x0F)).

(** ** [std::vector<char>] *)

(** [v[i]] as a read: indexing outside [0 .. size-1] is undefined
    behaviour, rendered as [None]. *)
Definition vec_at (v : list Z) (i : Z) : option Z :=
  if (i <? 0)%Z then None else v !! Z.to_nat i.

(** [v[i] = x]. *)
Definition vec_set (v : list Z) (i x : Z) : option (list Z) :=
  if (0 <=? i)%Z && (i <? Z.of_nat (length v))%Z
  then Some (<[Z.to_nat i := x]> v) else None.

(** [v.size()]. *)
Definition size (v : list Z) : Z := Z.of_nat (length v).

(** [v.resize(n)]: truncation, or padding with zero bytes. *)
Definition resize (v : list Z) (n : Z) : list Z :=
  take (Z.to_nat n) v ++ replicate (Z.to_nat n - length v) 0%Z.

(** ** The world: files, console, indeterminate memory *)

(** The three paths of the command line, [argv[1]], [argv[2]] and
    [argv[3]].  They are taken to name three different files: the source
    compares no paths, and a run whose output path is also the path of a
    bank is outside this model. *)
Inductive filename := Bankfile1 | Bankfile2 | Patfile.

Definition filename_eqb (a b : filename) : bool :=
  match a, b with
  | Bankfile1, Bankfile1 | Bankfile2, Bankfile2 | Patfile, Patfile => true
  | _, _ => false
  end.

(** What the program prints on [cout], one constructor per message;
    the names of the diagnostics follow the error taxonomy of the
    specification. *)
Inductive message :=
| Banner                                  (* "FB2SCI  v1.00    by ..." *)
| Usage                                   (* "   usage:  ..." *)
| MissingFile (f : filename)              (* "Error: file <f> not found" *)
| InvalidSignature (f : filename)         (* "Error: <f> is not a valid FB-01 sysex bank file (missing expected sysex header)." *)
| InvalidLength (f : filename) (actual : Z)
                                          (* "<f> is not the expected size (6363 bytes). ... Actual size: <actual>" *)
| LengthMismatch (size1 size2 : Z)        (* "Error: data vectors have different sizes" + both sizes *)
| UnexpectedLength (size1 size2 : Z)      (* "Error: data vectors not the expected size (6144)" + both sizes *)
| OverwritePrompt                         (* "Output file already exists. Do you want to overwrite it? (Y/N): " *)
| Wiped (f : filename)                    (* "File <f> successfully wiped." *)
| Aborting                                (* "Aborting operation..." *)
| Success.                                (* "SCI FB-01 Patch created successfully!" *)

Record world := World {
  fs : filename -> option (list Z);   (* contents of each file, [None] if it cannot be opened *)
  cin : list string;                  (* whitespace-separated tokens waiting on standard input *)
  cout : list message;                (* what has been printed so far *)
  stack : nat -> Z;                   (* the indeterminate contents of uninitialised arrays *)
  sp : nat                            (* next unused cell of [stack] *)
}.

Definition set_fs (f : filename -> option (list Z)) (w : world) : world :=
  World f (cin w) (cout w) (stack w) (sp w).
Definition set_cin (c : list string) (w : world) : world :=
  World (fs w) c (cout w) (stack w) (sp w).
Definition set_cout (c : list message) (w : world) : world :=
  World (fs w) (cin w) c (stack w) (sp w).
Definition set_sp (n : nat) (w : world) : world :=
  World (fs w) (cin w) (cout w) (stack w) n.

(** ** The monad of the program

    A computation returns normally, leaves the process through [exit], or
    runs into undefined behaviour. *)
Inductive outcome (A : Type) :=
| Ret (a : A) (w : world)
| Exit (code : Z) (w : world)
| Undefined.
Arguments Ret {A} a w.
Arguments Exit {A} code w.
Arguments Undefined {A}.

Definition M (A : Type) : Type := world -> outcome A.

Definition ret {A} (a : A) : M A := fun w => Ret a w.

Definition bind {A B} (m : M A) (k : A -> M B) : M B :=
  fun w => match m w with
           | Ret a w' => k a w'
           | Exit code w' => Exit code w'
           | Undefined => Undefined
           end.

Definition exit {A} (code : Z) : M A := fun w => Exit code w.
Definition undefined {A} : M A := fun _ => Undefined.

Declare Scope prog_scope.
Delimit Scope prog_scope with prog.
Notation "'let*' x := m 'in' k" := (bind m (fun x => k))
  (at level 10, x name, m at level 100, k at level 200) : prog_scope.
Notation "'let*' ' pat := m 'in' k" :=
  (bind m (fun x => match x with pat => k end))
  (at level 10, pat pattern, m at level 100, k at level 200) : prog_scope.
Notation "m ;; k" := (bind m (fun _ => k))
  (at level 100, right associativity) : prog_scope.
Local Open Scope prog_scope.

(** [cout << m]. *)
Definition log (m : message) (w : world) : world := set_cout (cout w ++ [m]) w.
Definition print (m : message) : M unit := fun w => Ret tt (log m w).

(** [cin >> answer]: the next token, or the empty string at end of input. *)
Definition cin_read : M string :=
  fun w => match cin w with
           | [] => Ret EmptyString w
           | t :: rest => Ret t (set_cin rest w)
           end.

(** An automatic array of [n] chars without initialiser. *)
Definition alloc (n : nat) (w : world) : world := set_sp (sp w + n) w.
Definition uninitialized (n : nat) : M (list Z) :=
  fun w => Ret (map (stack w) (seq (sp w) n)) (alloc n w).

(** ** [std::ifstream] *)

Record ifstream := Ifstream {
  contents : list Z;
  gpos : Z;
  eofbit : bool;
  failbit : bool
}.

Module IStream.

(** [std::ifstream s(name, ios::binary)]. *)
Definition open (name : filename) : M ifstream :=
  fun w => match fs w name with
           | Some c => Ret (Ifstream c 0 false false) w
           | None => Ret (Ifstream [] 0 false true) w
           end.

Definition good (s : ifstream) : bool := negb (eofbit s) && negb (failbit s).
Definition fail (s : ifstream) : bool := failbit s.

(** [s.read(buf, n)]: a stream that is not good only gets [failbit];
    otherwise the characters available are stored at the front of
    [buf], and fewer than [n] of them set [eofbit] and [failbit]. *)
Definition read (s : ifstream) (buf : list Z) (n : nat) : ifstream * list Z :=
  if good s then
    let got := take n (drop (Z.to_nat (gpos s)) (contents s)) in
    let buf' := got ++ drop (length got) buf in
    if (length got <? n)%nat
    then (Ifstream (contents s) (gpos s + Z.of_nat (length got)) true true, buf')
    else (Ifstream (contents s) (gpos s + Z.of_nat (length got)) false false, buf')
  else (Ifstream (contents s) (gpos s) (eofbit s) true, buf).

(** [s.seekg(pos)]: clears [eofbit], then moves unless the stream has
    failed; a position past the end of the file is accepted. *)
Definition seekg (s : ifstream) (pos : Z) : ifstream :=
  if failbit s then Ifstream (contents s) (gpos s) false true
  else if (pos <? 0)%Z then Ifstream (contents s) (gpos s) false true
  else Ifstream (contents s) pos false false.

(** [s.seekg(0, ios::end)]. *)
Definition seekg_end (s : ifstream) : ifstream :=
  seekg s (Z.of_nat (length (contents s))).

(** [s.tellg()]. *)
Definition tellg (s : ifstream) : Z :=
  if fail s then (-1)%Z else gpos s.

End IStream.

(** [memcmp(a, b, n)] on arrays of at least [n] bytes. *)
Fixpoint memcmp (a b : list Z) (n : nat) : Z :=
  match n, a, b with
  | S n', x :: a', y :: b' => if (x =? y)%Z then memcmp a' b' n' else (x - y)%Z
  | _, _, _ => 0%Z
  end.

(** ** [reorganize_data] (lines 153-197) *)

(** The body of the loop at lines 175-192, for the index [i]. *)
Definition loop_body (i : Z) (data : list Z * list Z) : option (list Z * list Z) :=
  let '(data1, data2) := data in
  high_byte1 ← vec_at data1 i;
  low_byte1 ← vec_at data1 (i + 1)%Z;
  high_byte2 ← vec_at data2 i;
  low_byte2 ← vec_at data2 (i + 1)%Z;
  let merged_byte1 := nibble_merge high_byte1 low_byte1 in
  let merged_byte2 := nibble_merge high_byte2 low_byte2 in
  data1 ← vec_set data1 (i ÷ 2)%Z merged_byte1;
  data1 ← vec_set data1 (i ÷ 2 + 1)%Z 0%Z;
  data2 ← vec_set data2 (i ÷ 2)%Z merged_byte2;
  data2 ← vec_set data2 (i ÷ 2 + 1)%Z 0%Z;
  Some (data1, data2).

(** [for (int i = ...; i < n; i += 2) body]: [None] is undefined
    behaviour (an access out of range, or the overflow of [i]).  The
    recursion is on [fuel]; [reorganize_data] supplies more than the loop
    can use. *)
Fixpoint merge_loop (fuel : nat) (i n : Z) (data : list Z * list Z)
  : option (list Z * list Z) :=
  match fuel with
  | O => None
  | S fuel' =>
      if (i <? n)%Z then
        data' ← loop_body i data;
        if (i + 2 >? INT_MAX)%Z then None
        else merge_loop fuel' (i + 2)%Z n data'
      else Some data
  end.

(** Lines 167-196: the loop and the two [resize] calls. *)
Definition denibblize (data1 data2 : list Z) : M (list Z * list Z) :=
  match merge_loop (S (length data1)) 0%Z
                   (static_cast_int (size data1)) (data1, data2) with
  | None => undefined
  | Some (data1, data2) =>
      ret (resize data1 (size data1 / 2)%Z, resize data2 (size data2 / 2)%Z)
  end.

Definition reorganize_data (data1 data2 : list Z) : M (list Z * list Z) :=
  if negb (size data1 =? size data2)%Z then
    print (LengthMismatch (size data1) (size data2)) ;;
    ret (data1, data2)                                        (* return; *)
  else
    (if negb (size data1 =? 6144)%Z
     then print (UnexpectedLength (size data1) (size data2))
     else ret tt) ;;
    denibblize data1 data2.

(** ** [read_files] (lines 128-151) *)

(** [count] iterations of the loop at lines 136-150, the two read
    positions being [pos1] and [pos2]. *)
Fixpoint read_files_loop (count : nat) (pos1 pos2 : Z) (file1 file2 : ifstream)
    (data1 data2 : list Z) : M (ifstream * ifstream * list Z * list Z) :=
  match count with
  | O => ret (file1, file2, data1, data2)
  | S count' =>
      let file1 := IStream.seekg file1 pos1 in
      let file2 := IStream.seekg file2 pos2 in
      let* buffer1 := uninitialized 128 in
      let* buffer2 := uninitialized 128 in
      let '(file1, buffer1) := IStream.read file1 buffer1 128 in
      let '(file2, buffer2) := IStream.read file2 buffer2 128 in
      let data1 := data1 ++ buffer1 in
      let data2 := data2 ++ buffer2 in
      read_files_loop count' (pos1 + 131)%Z (pos2 + 131)%Z file1 file2 data1 data2
  end.

Definition read_files (file1 file2 : ifstream) (data1 data2 : list Z)
  : M (ifstream * ifstream * list Z * list Z) :=
  read_files_loop 48 0x4c%Z 0x4C%Z file1 file2 data1 data2.

(** ** [write_to_file] (lines 199-222) *)

(** [std::ofstream out_file(name, ios::binary)]: creates or truncates.
    The open is taken to succeed; the source never tests the stream, and
    a path that cannot be opened for writing is outside this model. *)
Definition ofstream_open (name : filename) : M unit :=
  fun w => Ret tt (set_fs (fun f => if filename_eqb f name then Some [] else fs w f) w).

(** [out_file.write(p, n)]: appends at the end of what was written. *)
Definition ofstream_write (name : filename) (bytes : list Z) : M unit :=
  fun w => Ret tt (set_fs (fun f => if filename_eqb f name
                                    then (fun c => c ++ bytes) <$> fs w f
                                    else fs w f) w).

Definition write_to_file (data1 data2 : list Z) (output_filename : filename) : M unit :=
  ofstream_open output_filename ;;
  let sciPatchHeader := [0x89; 0x00]%Z in
  ofstream_write output_filename sciPatchHeader ;;
  ofstream_write output_filename data1 ;;
  let bankSeparator := [0xAB; 0xCD]%Z in
  ofstream_write output_filename bankSeparator ;;
  ofstream_write output_filename data2.

(** ** [check_file_exists] and [check_output_file] (lines 224-245) *)

Definition check_file_exists (name : filename) : M bool :=
  let* infile := IStream.open name in
  ret (IStream.good infile).

Definition check_output_file (output_filename : filename) : M unit :=
  let* file := IStream.open output_filename in
  if IStream.good file then
    print OverwritePrompt ;;
    let* answer := cin_read in
    if String.eqb answer "Y" || String.eqb answer "y" then
      ofstream_open output_filename ;;                      (* ios::trunc *)
      print (Wiped output_filename)
    else
      print Aborting ;;
      exit EXIT_FAILURE
  else ret tt.

(** ** [main] (lines 29-126) *)

Definition bank_A_signature : list Z := [0xF0; 0x43; 0x75; 0x00; 0x00; 0x00; 0x00]%Z.
Definition bank_B_signature : list Z := [0xF0; 0x43; 0x75; 0x00; 0x00; 0x00; 0x01]%Z.

(** Lines 47-75 for bank A and lines 77-104 for bank B: the same
    statements, up to the file, the signature literal and what the array
    [header] holds on entry. *)
Definition validate_bank (input_filename : filename) (signature header : list Z)
  : M (ifstream * list Z) :=
  let* input_file := IStream.open input_filename in
  let* found := check_file_exists input_filename in
  if negb found then
    print (MissingFile input_filename) ;;
    exit EXIT_FAILURE
  else
    let '(input_file, header) := IStream.read input_file header 7 in
    if negb (memcmp header signature 7 =? 0)%Z then
      print (InvalidSignature input_filename) ;;
      exit EXIT_FAILURE
    else
      let input_file := IStream.seekg_end input_file in
      let length := IStream.tellg input_file in
      let input_file := IStream.seekg input_file 0 in
      if negb (length =? 6363)%Z then
        print (InvalidLength input_filename length) ;;
        exit EXIT_FAILURE
      else ret (input_file, header).

(** Lines 118-125, from the two vectors that [read_files] filled. *)
Definition transcode_and_write (data1 data2 : list Z) (output_filename : filename) : M Z :=
  let* '(data1, data2) := reorganize_data data1 data2 in
  write_to_file data1 data2 output_filename ;;
  print Success ;;
  ret 0%Z.

Definition main (argc : Z) : M Z :=
  print Banner ;;
  if negb (argc =? 4)%Z then
    print Usage ;;
    ret 1%Z
  else
    let* header := uninitialized 7 in                       (* char header[7]; *)
    let* '(input_file1, header) := validate_bank Bankfile1 bank_A_signature header in
    let* '(input_file2, header) := validate_bank Bankfile2 bank_B_signature header in
    check_output_file Patfile ;;
    let* '(input_file1, input_file2, data1, data2) :=
      read_files input_file1 input_file2 [] [] in
    transcode_and_write data1 data2 Patfile.

(** ** The transform as the specification words it

    "Each original 2-byte pair (high_byte, low_byte) collapses to one
    output byte", read from an immutable source into a fresh buffer. *)
Fixpoint merge_pairs (source : list Z) : list Z :=
  match source with
  | high_byte :: low_byte :: rest => nibble_merge high_byte low_byte :: merge_pairs rest
  | _ => []
  end.

(** The [k]-th 128-byte window of a bank file: offset [0x4C + 131 * k]. *)
Definition window (bank : list Z) (k : nat) : list Z :=
  take 128 (drop (0x4C + 131 * k) bank).

Definition windows (bank : list Z) : list Z :=
  concat (map (window bank) (seq 0 48)).

(** ** Auxiliary definitions used by the proofs *)

(** What one iteration of the loop does to one of the two vectors. *)
Definition step1 (i : Z) (d : list Z) : option (list Z) :=
  high_byte ← vec_at d i;
  low_byte ← vec_at d (i + 1)%Z;
  d' ← vec_set d (i ÷ 2)%Z (nibble_merge high_byte low_byte);
  vec_set d' (i ÷ 2 + 1)%Z 0%Z.

(** The state of a vector after [k] iterations, [orig] being its initial
    contents: the first [k] cells hold the merged pairs and the cells from
    [2 * k] on are still untouched. *)
Definition merged_upto (orig b : list Z) (k : nat) : Prop :=
  length b = length orig ∧
  (∀ j, j < k → b !! j = merge_pairs orig !! j) ∧
  (∀ j, 2 * k ≤ j → b !! j = orig !! j).

(** A size that [static_cast<int>] leaves unchanged. *)
Definition fits_int (n : Z) : Prop := (n <= INT_MAX)%Z.

(** The world in which [reorganize_data] returns when the sizes agree. *)
Definition after_size_check (data1 data2 : list Z) (w : world) : world :=
  if decide (size data1 = 6144%Z) then w
  else log (UnexpectedLength (size data1) (size data2)) w.

(** The bytes that [count] windows starting at [pos] take from [bank]. *)
Definition windows_from (bank : list Z) (pos count : nat) : list Z :=
  concat (map (λ j, take 128 (drop (pos + 131 * j) bank)) (seq 0 count)).

(** The output may be written: the file is absent, or the user confirms
    that it shall be overwritten. *)
Definition may_write (w : world) : Prop :=
  fs w Patfile = None
  ∨ ∃ answer rest, cin w = answer :: rest ∧ (answer = "Y" ∨ answer = "y").

(** The [k]-th window of [file], if it lies inside the file, is what
    [t] holds at offset [128 * k]; [pos] is the offset of window 0. *)
Definition copied_window (file : ifstream) (pos : nat) (t : list Z) (k : nat) : Prop :=
  pos + 131 * k + 128 ≤ length (contents file) →
  take 128 (drop (128 * k) t) = take 128 (drop (pos + 131 * k) (contents file)).

(** The world in which [main] starts the validation of bank A. *)
Definition entered (w : world) : world := alloc 7 (log Banner w).

(** A bank file that passes both checks of the validation. *)
Definition valid_bank (w : world) (name : filename) (signature : list Z) (f : list Z) : Prop :=
  fs w name = Some f ∧ take 7 f = signature ∧ size f = 6363%Z.

(** The signature that [main] expects of each input file. *)
Definition signature_of (bank : filename) : list Z :=
  match bank with
  | Bankfile2 => bank_B_signature
  | _ => bank_A_signature
  end.

(** An index inside a vector. *)
Definition in_range (v : list Z) (i : Z) : Prop := (0 <= i < size v)%Z.

(** What a run shows to the outside: how it ended, what it printed and
    what the output file holds. *)
Definition observe {A} (o : outcome A)
  : option (A + Z) * list message * option (list Z) :=
  match o with
  | Ret a w => (Some (inl a), cout w, fs w Patfile)
  | Exit code w => (Some (inr code), cout w, fs w Patfile)
  | Undefined => (None, [], None)
  end.

(** What [read_files] hands back when it returns: the two vectors, and
    what has been printed. *)
Definition extracted (o : outcome (ifstream * ifstream * list Z * list Z))
  : option (list Z * list Z * list message) :=
  match o with
  | Ret (_, _, data1, data2) w => Some (data1, data2, cout w)
  | _ => None
  end.

(** The two diagnostics of [reorganize_data] about the sizes of its vectors. *)
Definition size_diagnostic (m : message) : bool :=
  match m with
  | LengthMismatch _ _ | UnexpectedLength _ _ => true
  | _ => false
  end.

(** The messages with which the validation of the file [name] can end. *)
Definition validation_error (name : filename) (m : message) : Prop :=
  m = MissingFile name ∨ m = InvalidSignature name ∨ ∃ actual, m = InvalidLength name actual.

(** The answer waiting on standard input, if any, is not a confirmation. *)
Definition declines (w : world) : Prop :=
  ∀ answer rest, cin w = answer :: rest → answer ≠ "Y" ∧ answer ≠ "y".

(** The patch resource made of two bank files. *)
Definition patch (f1 f2 : list Z) : list Z :=
  [0x89; 0x00]%Z ++ merge_pairs (windows f1) ++ [0xAB; 0xCD]%Z ++ merge_pairs (windows f2).

(** A run that ends with the status [code] in the world [w']: by
    [return] from [main] or through [exit]. *)
Definition ended (o : outcome Z) (code : Z) (w' : world) : Prop :=
  o = Ret code w' ∨ o = Exit code w'.
(** The inverse direction of the merge, used to state the round trip: a
    byte as the pair of bytes that [nibble_merge] turns into it, the low
    nibble first. *)
Definition nibble_split (bytes : list Z) : list Z :=
  flat_map (λ b, [b mod 16; b / 16]%Z) bytes.

(** A value that a byte of a file can take. *)
Definition is_byte (b : Z) : Prop := (0 <= b < 256)%Z.


(** ** Sample inputs *)

Definition sample_world (bank1 bank2 pat : option (list Z)) (input : list string) : world :=
  World (λ name, match name with
                 | Bankfile1 => bank1
                 | Bankfile2 => bank2
                 | Patfile => pat
                 end)
        input [] (λ _, 0xCC%Z) 0.

(** The payload of an instrument packet in which [0x00, 0x01] repeats. *)
Definition sample_packet : list Z := concat (replicate 64 [0x00; 0x01]%Z).

(** A bank file of the right size: the signature, the rest of the 76
    bytes before the first payload, 47 packets each followed by a checksum
    and the two size bytes of the next packet, the last packet, its
    checksum and the end of the sysex message. *)
Definition sample_bank (signature : list Z) : list Z :=
  signature ++ replicate 69 0x00%Z
  ++ concat (replicate 47 (sample_packet ++ [0x7F; 0x01; 0x00]%Z))
  ++ sample_packet ++ [0x7F; 0xF7]%Z.

Definition sample_bank_A : list Z := sample_bank bank_A_signature.
Definition sample_bank_B : list Z := sample_bank bank_B_signature.

(** A file that ends inside the first window. *)
Definition short_bank : list Z := bank_A_signature ++ replicate 93 0x55%Z.

(** A file one byte short, filled with zeros. *)
Definition zero_bank : list Z := replicate (Z.to_nat 6362) 0%Z.

(** * Verification *)

(** ** The nibble merge *)

Section nibble.
Local Open Scope Z_scope.

Lemma nibble_enum (x : Z) :
  0 <= x < 16 →
  x = 0 ∨ x = 1 ∨ x = 2 ∨ x = 3 ∨ x = 4 ∨ x = 5 ∨ x = 6 ∨ x = 7 ∨
  x = 8 ∨ x = 9 ∨ x = 10 ∨ x = 11 ∨ x = 12 ∨ x = 13 ∨ x = 14 ∨ x = 15.
Proof. lia. Qed.

Ltac enum_nibble x Hx :=
  destruct (nibble_enum x Hx)
    as [->|[->|[->|[->|[->|[->|[->|[->|[->|[->|[->|[->|[->|[->|[->| ->]]]]]]]]]]]]]]].

Lemma land_0x0F (b : Z) : Z.land b 0x0F = b mod 16.
Proof. change 0x0F with (Z.ones 4). by rewrite Z.land_ones. Qed.

(** The merged byte in arithmetic terms. *)
Lemma nibble_merge_arith (high_byte low_byte : Z) :
  nibble_merge high_byte low_byte = (low_byte mod 16) * 16 + high_byte mod 16.
Proof.
  unfold nibble_merge, to_uchar. rewrite !land_0x0F.
  pose proof (Z.mod_pos_bound low_byte 16 eq_refl) as Hl.
  pose proof (Z.mod_pos_bound high_byte 16 eq_refl) as Hh.
  revert Hl Hh. generalize (low_byte mod 16) (high_byte mod 16).
  intros x y Hx Hy.
  enum_nibble x Hx; enum_nibble y Hy; reflexivity.
Qed.

(** The conversion to [unsigned char] loses nothing. *)
Lemma nibble_merge_bits (high_byte low_byte : Z) :
  nibble_merge high_byte low_byte
  = Z.lor (Z.shiftl (Z.land low_byte 0x0F) 4) (Z.land high_byte 0x0F).
Proof.
  rewrite nibble_merge_arith. rewrite !land_0x0F.
  pose proof (Z.mod_pos_bound low_byte 16 eq_refl) as Hl.
  pose proof (Z.mod_pos_bound high_byte 16 eq_refl) as Hh.
  revert Hl Hh. generalize (low_byte mod 16) (high_byte mod 16).
  intros x y Hx Hy.
  enum_nibble x Hx; enum_nibble y Hy; reflexivity.
Qed.

Lemma nibble_merge_range (high_byte low_byte : Z) :
  0 <= nibble_merge high_byte low_byte < 256.
Proof.
  rewrite nibble_merge_arith.
  pose proof (Z.mod_pos_bound low_byte 16 eq_refl).
  pose proof (Z.mod_pos_bound high_byte 16 eq_refl). lia.
Qed.

Lemma nibble_merge_high (high_byte low_byte : Z) :
  nibble_merge high_byte low_byte / 16 = low_byte mod 16.
Proof.
  rewrite nibble_merge_arith.
  pose proof (Z.mod_pos_bound high_byte 16 eq_refl).
  rewrite Z.div_add_l by lia. rewrite Z.div_small; lia.
Qed.

Lemma nibble_merge_low (high_byte low_byte : Z) :
  nibble_merge high_byte low_byte mod 16 = high_byte mod 16.
Proof.
  rewrite nibble_merge_arith.
  rewrite Z.add_comm, Z.mod_add by lia. apply Z.mod_mod. lia.
Qed.

End nibble.

(** ** Vector accesses *)

Section vector.
Implicit Types v b d : list Z.

Lemma vec_at_nat v (n : nat) : vec_at v (Z.of_nat n) = v !! n.
Proof.
  unfold vec_at. destruct (Z.ltb_spec (Z.of_nat n) 0); [lia|].
  by rewrite Nat2Z.id.
Qed.

Lemma vec_at_is_Some v (i : Z) :
  is_Some (vec_at v i) ↔ (0 <= i < Z.of_nat (length v))%Z.
Proof.
  unfold vec_at. destruct (Z.ltb_spec i 0).
  - split; [intros [? ?]; discriminate | lia].
  - rewrite lookup_lt_is_Some. lia.
Qed.

Lemma vec_set_nat v (n : nat) x :
  n < length v → vec_set v (Z.of_nat n) x = Some (<[n:=x]> v).
Proof.
  intros Hn. unfold vec_set.
  destruct (Z.leb_spec 0 (Z.of_nat n)); [|lia].
  destruct (Z.ltb_spec (Z.of_nat n) (Z.of_nat (length v))); [|lia].
  simpl. by rewrite Nat2Z.id.
Qed.

Lemma vec_set_is_Some v (i x : Z) :
  is_Some (vec_set v i x) ↔ (0 <= i < Z.of_nat (length v))%Z.
Proof.
  unfold vec_set.
  destruct (Z.leb_spec 0 i), (Z.ltb_spec i (Z.of_nat (length v))); simpl;
    (split; [intros [? ?]; (discriminate || lia) | intros; (eauto || lia)]).
Qed.

Lemma vec_set_length v (i x : Z) v' : vec_set v i x = Some v' → length v' = length v.
Proof.
  unfold vec_set. case_match; [|discriminate].
  intros [= <-]. apply length_insert.
Qed.

Lemma resize_half b (m : nat) :
  length b = 2 * m → resize b (size b / 2)%Z = take m b.
Proof.
  intros Hb. unfold resize, size. rewrite Hb.
  replace (Z.of_nat (2 * m) / 2)%Z with (Z.of_nat m)
    by (rewrite Nat2Z.inj_mul, Z.mul_comm, Z.div_mul; lia).
  rewrite Nat2Z.id. replace (m - 2 * m) with 0 by lia.
  cbn [replicate]. apply app_nil_r.
Qed.

End vector.

(** ** The specification's transform *)

Section merge_pairs_facts.

Lemma list_pair_ind (P : list Z → Prop) :
  P [] → (∀ x, P [x]) → (∀ x y l, P l → P (x :: y :: l)) → ∀ l, P l.
Proof.
  intros Hnil Hone Hstep l.
  enough (P l ∧ ∀ x, P (x :: l)) by tauto.
  induction l as [|y l [IH1 IH2]]; split; auto.
Qed.

Lemma merge_pairs_length (d : list Z) : length (merge_pairs d) = length d / 2.
Proof.
  induction d as [|x|x y l IH] using list_pair_ind; [done..|].
  cbn [merge_pairs length]. rewrite IH.
  change (S (S (length l))) with (1 * 2 + length l).
  by rewrite Nat.div_add_l.
Qed.

Lemma merge_pairs_lookup (d : list Z) (k : nat) (h l : Z) :
  d !! (2 * k) = Some h → d !! (2 * k + 1) = Some l →
  merge_pairs d !! k = Some (nibble_merge h l).
Proof.
  revert d. induction k as [|k IH]; intros d.
  - destruct d as [|x [|y d]]; simpl; try discriminate.
    by intros [= ->] [= ->].
  - replace (2 * S k) with (S (S (2 * k))) by lia.
    destruct d as [|x [|y d]]; simpl; try discriminate.
    apply IH.
Qed.

End merge_pairs_facts.

(** ** The loop of [reorganize_data] *)

Section merge_loop_facts.

Lemma static_cast_int_small (v : list Z) :
  fits_int (size v) → static_cast_int (size v) = size v.
Proof.
  unfold fits_int, static_cast_int, INT_MAX, size. intros Hn.
  rewrite Z.mod_small; lia.
Qed.

Lemma loop_body_split (i : Z) (d1 d2 : list Z) :
  loop_body i (d1, d2)
  = (d1' ← step1 i d1; d2' ← step1 i d2; Some (d1', d2')).
Proof.
  unfold loop_body, step1.
  destruct (vec_at d1 i) as [h1|]; simpl; [|done].
  destruct (vec_at d1 (i + 1)) as [l1|]; simpl; [|done].
  destruct (vec_at d2 i) as [h2|]; simpl.
  2: { destruct (vec_set d1 _ _) as [d1'|]; simpl; [|done].
       by destruct (vec_set d1' _ _). }
  destruct (vec_at d2 (i + 1)) as [l2|]; simpl.
  2: { destruct (vec_set d1 _ _) as [d1'|]; simpl; [|done].
       by destruct (vec_set d1' _ _). }
  destruct (vec_set d1 _ _) as [d1'|]; simpl; [|done].
  destruct (vec_set d1' _ _) as [d1''|]; simpl; [|done].
  destruct (vec_set d2 _ _) as [d2'|]; simpl; [|done].
  by destruct (vec_set d2' _ _).
Qed.

Lemma quot_double (k : nat) : (Z.of_nat (2 * k) ÷ 2)%Z = Z.of_nat k.
Proof. rewrite Nat2Z.inj_mul, Z.mul_comm. by apply Z.quot_mul. Qed.

(** One iteration, on one vector. *)
Lemma step1_merged (orig b : list Z) (k : nat) :
  merged_upto orig b k → 2 * k + 1 < length orig →
  ∃ b', step1 (Z.of_nat (2 * k)) b = Some b' ∧ merged_upto orig b' (S k).
Proof.
  intros (Hlen & Hlo & Hhi) Hk.
  destruct (lookup_lt_is_Some_2 orig (2 * k)) as [h Hh]; [lia|].
  destruct (lookup_lt_is_Some_2 orig (2 * k + 1)) as [l Hl]; [lia|].
  exists (<[S k := 0%Z]> (<[k := nibble_merge h l]> b)). split.
  - unfold step1. rewrite vec_at_nat, (Hhi (2 * k)), Hh by lia.
    cbn [mbind option_bind].
    replace (Z.of_nat (2 * k) + 1)%Z with (Z.of_nat (2 * k + 1)) by lia.
    rewrite vec_at_nat, (Hhi (2 * k + 1)), Hl by lia.
    cbn [mbind option_bind].
    rewrite quot_double, vec_set_nat by lia.
    cbn [mbind option_bind].
    replace (Z.of_nat k + 1)%Z with (Z.of_nat (S k)) by lia.
    rewrite vec_set_nat; [done|]. rewrite length_insert. lia.
  - split; [by rewrite !length_insert|]. split.
    + intros j Hj. rewrite list_lookup_insert_ne by lia.
      destruct (decide (j = k)) as [->|Hne].
      * rewrite list_lookup_insert_eq by lia.
        symmetry. by apply merge_pairs_lookup.
      * rewrite list_lookup_insert_ne by lia. apply Hlo. lia.
    + intros j Hj. rewrite !list_lookup_insert_ne by lia. apply Hhi. lia.
Qed.

(** The loop with the bound [2 * m], from the state reached after [k]
    iterations. *)
Lemma merge_loop_merged (orig1 orig2 : list Z) (m : nat) :
  2 * m ≤ length orig1 → 2 * m ≤ length orig2 → fits_int (Z.of_nat (2 * m)) →
  ∀ fuel k b1 b2,
    k ≤ m → m - k < fuel →
    merged_upto orig1 b1 k → merged_upto orig2 b2 k →
    ∃ b1' b2',
      merge_loop fuel (Z.of_nat (2 * k)) (Z.of_nat (2 * m)) (b1, b2) = Some (b1', b2')
      ∧ merged_upto orig1 b1' m ∧ merged_upto orig2 b2' m.
Proof.
  intros Hlen1 Hlen2 Hfit. unfold fits_int in Hfit.
  induction fuel as [|fuel IH]; intros k b1 b2 Hk Hfuel H1 H2; [lia|].
  cbn [merge_loop].
  destruct (Z.ltb_spec (Z.of_nat (2 * k)) (Z.of_nat (2 * m))) as [Hlt|Hge].
  - destruct (step1_merged orig1 b1 k H1) as (b1' & Hs1 & H1'); [lia|].
    destruct (step1_merged orig2 b2 k H2) as (b2' & Hs2 & H2'); [lia|].
    rewrite loop_body_split, Hs1, Hs2. cbn [mbind option_bind].
    destruct (Z.gtb_spec (Z.of_nat (2 * k) + 2) INT_MAX) as [Hov|_]; [lia|].
    replace (Z.of_nat (2 * k) + 2)%Z with (Z.of_nat (2 * S k)) by lia.
    apply IH; [lia | lia | done | done].
  - assert (k = m) as -> by lia. eauto.
Qed.

Lemma merged_upto_init (orig : list Z) : merged_upto orig orig 0.
Proof. split; [done|]. split; [intros j Hj; lia | done]. Qed.

Lemma merged_upto_final (orig b : list Z) (m : nat) :
  length orig = 2 * m → merged_upto orig b m →
  resize b (size b / 2)%Z = merge_pairs orig.
Proof.
  intros Hlen (Hb & Hlo & _). rewrite (resize_half b m) by congruence.
  assert (length (merge_pairs orig) = m) as Hm.
  { rewrite merge_pairs_length, Hlen, Nat.mul_comm, Nat.div_mul; lia. }
  apply list_eq. intros i. destruct (decide (i < m)) as [Hi|Hi].
  - rewrite lookup_take_lt by done. by apply Hlo.
  - rewrite lookup_take_ge by lia. symmetry. apply lookup_ge_None_2. lia.
Qed.

(** The in-place pass and the two truncations compute the pure transform. *)
Lemma denibblize_correct (data1 data2 : list Z) (w : world) :
  length data1 = length data2 → Nat.Even (length data1) → fits_int (size data1) →
  denibblize data1 data2 w = Ret (merge_pairs data1, merge_pairs data2) w.
Proof.
  intros Heq [m Hm] Hfit. unfold denibblize.
  rewrite static_cast_int_small by done. unfold size at 1. rewrite Hm.
  destruct (merge_loop_merged data1 data2 m) with (fuel := S (2 * m)) (k := 0)
    (b1 := data1) (b2 := data2) as (b1 & b2 & Hrun & H1 & H2);
    [lia | lia | by unfold size in Hfit; rewrite Hm in Hfit | lia | lia
     | apply merged_upto_init | apply merged_upto_init |].
  change (Z.of_nat (2 * 0)) with 0%Z in Hrun. rewrite Hrun.
  rewrite (merged_upto_final data1 b1 m), (merged_upto_final data2 b2 m);
    [done | congruence | done | done | done].
Qed.

End merge_loop_facts.

(** ** [reorganize_data] *)

Section reorganize_data_facts.

Lemma size_eq (v1 v2 : list Z) : size v1 = size v2 ↔ length v1 = length v2.
Proof. unfold size. lia. Qed.

Lemma reorganize_data_mismatch (data1 data2 : list Z) (w : world) :
  length data1 ≠ length data2 →
  reorganize_data data1 data2 w
  = Ret (data1, data2) (log (LengthMismatch (size data1) (size data2)) w).
Proof.
  intros Hne. unfold reorganize_data.
  destruct (Z.eqb_spec (size data1) (size data2)) as [Heq|_].
  - by apply size_eq in Heq.
  - reflexivity.
Qed.

Lemma reorganize_data_unexpected (data1 data2 : list Z) (w : world) :
  length data1 = length data2 → size data1 ≠ 6144%Z →
  reorganize_data data1 data2 w
  = denibblize data1 data2 (log (UnexpectedLength (size data1) (size data2)) w).
Proof.
  intros Heq Hne. unfold reorganize_data.
  destruct (Z.eqb_spec (size data1) (size data2)) as [_|Hsz].
  - destruct (Z.eqb_spec (size data1) 6144); [done|]. reflexivity.
  - by rewrite size_eq in Hsz.
Qed.

Lemma reorganize_data_expected (data1 data2 : list Z) (w : world) :
  length data1 = length data2 → size data1 = 6144%Z →
  reorganize_data data1 data2 w = denibblize data1 data2 w.
Proof.
  intros Heq Hlen. unfold reorganize_data.
  destruct (Z.eqb_spec (size data1) (size data2)) as [_|Hsz].
  - destruct (Z.eqb_spec (size data1) 6144); [|done]. reflexivity.
  - by rewrite size_eq in Hsz.
Qed.

Lemma reorganize_data_correct (data1 data2 : list Z) (w : world) :
  length data1 = length data2 → Nat.Even (length data1) → fits_int (size data1) →
  reorganize_data data1 data2 w
  = Ret (merge_pairs data1, merge_pairs data2) (after_size_check data1 data2 w).
Proof.
  intros Heq Hev Hfit. unfold after_size_check.
  destruct (decide (size data1 = 6144%Z)) as [Hlen|Hlen].
  - rewrite reorganize_data_expected by done. by apply denibblize_correct.
  - rewrite reorganize_data_unexpected by done. by apply denibblize_correct.
Qed.

End reorganize_data_facts.

(** ** Streams *)

Section stream_facts.

Lemma seekg_ok (s : ifstream) (pos : nat) :
  failbit s = false →
  IStream.seekg s (Z.of_nat pos) = Ifstream (contents s) (Z.of_nat pos) false false.
Proof.
  intros Hfail. unfold IStream.seekg. rewrite Hfail.
  destruct (Z.ltb_spec (Z.of_nat pos) 0); [lia|done].
Qed.

Lemma seekg_failed (s : ifstream) (pos : Z) :
  failbit s = true →
  IStream.seekg s pos = Ifstream (contents s) (gpos s) false true.
Proof. intros Hfail. unfold IStream.seekg. by rewrite Hfail. Qed.

(** A read that finds all its [n] bytes. *)
Lemma read_full (c : list Z) (pos : nat) (buf : list Z) (n : nat) :
  pos + n ≤ length c →
  IStream.read (Ifstream c (Z.of_nat pos) false false) buf n
  = (Ifstream c (Z.of_nat (pos + n)) false false,
     take n (drop pos c) ++ drop n buf).
Proof.
  intros Hc. unfold IStream.read, IStream.good.
  cbn [eofbit failbit gpos contents negb andb].
  rewrite Nat2Z.id.
  assert (length (take n (drop pos c)) = n) as Hgot.
  { rewrite length_take, length_drop. lia. }
  rewrite Hgot. destruct (Nat.ltb_spec n n); [lia|].
  by rewrite Nat2Z.inj_add.
Qed.

Lemma read_full_array (c : list Z) (pos : nat) (buf : list Z) (n : nat) :
  pos + n ≤ length c → length buf ≤ n →
  IStream.read (Ifstream c (Z.of_nat pos) false false) buf n
  = (Ifstream c (Z.of_nat (pos + n)) false false, take n (drop pos c)).
Proof.
  intros Hc Hbuf. rewrite read_full by done.
  by rewrite (drop_ge buf), app_nil_r.
Qed.

(** A read from a stream that has failed stores nothing. *)
Lemma read_failed (s : ifstream) (buf : list Z) (n : nat) :
  failbit s = true →
  IStream.read s buf n = (Ifstream (contents s) (gpos s) (eofbit s) true, buf).
Proof.
  intros Hfail. unfold IStream.read, IStream.good. rewrite Hfail.
  by rewrite andb_false_r.
Qed.

(** Whatever the state of the stream, an array of [n] bytes stays one. *)
Lemma read_length (s : ifstream) (buf : list Z) (n : nat) :
  length buf = n → length (IStream.read s buf n).2 = n.
Proof.
  intros Hbuf. unfold IStream.read.
  destruct (IStream.good s); [|done].
  set (got := take n (drop (Z.to_nat (gpos s)) (contents s))).
  assert (length got ≤ n) as Hgot by (unfold got; rewrite length_take; lia).
  destruct (length got <? n); cbn [snd];
    rewrite length_app, length_drop; lia.
Qed.

Lemma read_contents (s : ifstream) (buf : list Z) (n : nat) :
  contents (IStream.read s buf n).1 = contents s.
Proof.
  unfold IStream.read. destruct (IStream.good s); [|done].
  by destruct (_ <? n).
Qed.

Lemma seekg_contents (s : ifstream) (pos : Z) :
  contents (IStream.seekg s pos) = contents s.
Proof.
  unfold IStream.seekg. destruct (failbit s); [done|]. by destruct (pos <? 0)%Z.
Qed.

Lemma uninitialized_length (n : nat) (w : world) :
  length (map (stack w) (seq (sp w) n)) = n.
Proof. by rewrite length_map, length_seq. Qed.

Lemma memcmp_0_iff (a b : list Z) (n : nat) :
  n ≤ length a → n ≤ length b →
  memcmp a b n = 0%Z ↔ take n a = take n b.
Proof.
  revert a b. induction n as [|n IH]; intros a b Ha Hb.
  { by destruct a, b. }
  destruct a as [|x a]; [simpl in Ha; lia|].
  destruct b as [|y b]; [simpl in Hb; lia|].
  simpl in Ha, Hb. cbn [memcmp take].
  destruct (Z.eqb_spec x y) as [->|Hne].
  - rewrite IH by lia. split; [by intros -> | by intros [= ->]].
  - split; [lia | intros [= ? _]; done].
Qed.

End stream_facts.

(** ** [read_files] *)

Section read_files_facts.

Lemma windows_from_S (bank : list Z) (pos count : nat) :
  windows_from bank pos (S count)
  = take 128 (drop pos bank) ++ windows_from bank (pos + 131) count.
Proof.
  unfold windows_from. cbn [seq map concat].
  rewrite Nat.mul_0_r, Nat.add_0_r. f_equal.
  rewrite <- seq_shift, map_map. f_equal. apply map_ext. intros j.
  do 2 f_equal. lia.
Qed.

Lemma windows_from_length (bank : list Z) (pos count : nat) :
  (∀ j, j < count → pos + 131 * j + 128 ≤ length bank) →
  length (windows_from bank pos count) = 128 * count.
Proof.
  revert pos. induction count as [|count IH]; intros pos Hin; [done|].
  rewrite windows_from_S, length_app, IH.
  - rewrite length_take, length_drop. specialize (Hin 0). lia.
  - intros j Hj. specialize (Hin (S j)). lia.
Qed.

Lemma windows_eq (bank : list Z) : windows bank = windows_from bank 0x4C 48.
Proof. reflexivity. Qed.

(** When every window lies inside both files, the loop appends exactly
    the windows; it prints nothing and touches no file. *)
Lemma read_files_loop_in_bounds (count : nat) :
  ∀ (pos1 pos2 : nat) (file1 file2 : ifstream) (data1 data2 : list Z) (w : world),
    failbit file1 = false → failbit file2 = false →
    (∀ j, j < count → pos1 + 131 * j + 128 ≤ length (contents file1)) →
    (∀ j, j < count → pos2 + 131 * j + 128 ≤ length (contents file2)) →
    ∃ file1' file2' w',
      read_files_loop count (Z.of_nat pos1) (Z.of_nat pos2) file1 file2 data1 data2 w
      = Ret (file1', file2',
             data1 ++ windows_from (contents file1) pos1 count,
             data2 ++ windows_from (contents file2) pos2 count) w'
      ∧ cout w' = cout w ∧ fs w' = fs w ∧ cin w' = cin w.
Proof.
  induction count as [|count IH]; intros pos1 pos2 file1 file2 data1 data2 w Hf1 Hf2 Hin1 Hin2.
  - exists file1, file2, w. cbn [read_files_loop]. unfold ret, windows_from.
    cbn [seq map concat]. by rewrite !app_nil_r.
  - cbn [read_files_loop]. rewrite !seekg_ok by done.
    unfold bind at 1, uninitialized at 1. unfold bind at 1, uninitialized at 1.
    pose proof (Hin1 0 ltac:(lia)) as H10. pose proof (Hin2 0 ltac:(lia)) as H20.
    rewrite !read_full_array by (rewrite ?uninitialized_length; lia).
    replace (Z.of_nat pos1 + 131)%Z with (Z.of_nat (pos1 + 131)) by lia.
    replace (Z.of_nat pos2 + 131)%Z with (Z.of_nat (pos2 + 131)) by lia.
    edestruct (IH (pos1 + 131) (pos2 + 131)
                 (Ifstream (contents file1) (Z.of_nat (pos1 + 128)) false false)
                 (Ifstream (contents file2) (Z.of_nat (pos2 + 128)) false false))
      as (file1' & file2' & w' & Hrun & Hcout & Hfs & Hcin); [done | done | ..].
    + intros j Hj. specialize (Hin1 (S j)). cbn [contents]. lia.
    + intros j Hj. specialize (Hin2 (S j)). cbn [contents]. lia.
    + exists file1', file2', w'. rewrite Hrun. cbn [contents].
      rewrite !windows_from_S, !app_assoc. done.
Qed.

End read_files_facts.

(** ** Validation of a bank file *)

Section validate_facts.
Context (name : filename) (signature header : list Z) (w : world) (f : list Z).
Hypothesis Hfs : fs w name = Some f.
Hypothesis Hsig : length signature = 7.

Lemma validate_bank_open :
  validate_bank name signature header w
  = (let '(input_file, header) := IStream.read (Ifstream f 0 false false) header 7 in
     if negb (memcmp header signature 7 =? 0)%Z then
       print (InvalidSignature name) ;; exit EXIT_FAILURE
     else
       let input_file := IStream.seekg_end input_file in
       let length := IStream.tellg input_file in
       let input_file := IStream.seekg input_file 0 in
       if negb (length =? 6363)%Z then
         print (InvalidLength name length) ;; exit EXIT_FAILURE
       else ret (input_file, header)) w.
Proof.
  unfold validate_bank, check_file_exists.
  unfold bind at 1. unfold IStream.open at 1. rewrite Hfs.
  unfold bind at 1. unfold bind at 1. unfold IStream.open at 1. rewrite Hfs.
  reflexivity.
Qed.

Lemma read_header :
  7 ≤ length f →
  IStream.read (Ifstream f 0 false false) header 7
  = (Ifstream f 7 false false, take 7 f ++ drop 7 header).
Proof. intros Hlen. apply (read_full f 0 header 7). lia. Qed.

Lemma memcmp_header :
  7 ≤ length f →
  memcmp (take 7 f ++ drop 7 header) signature 7 = 0%Z ↔ take 7 f = signature.
Proof.
  intros Hlen. rewrite memcmp_0_iff.
  - rewrite take_app_le by (rewrite length_take; lia).
    rewrite take_take, (take_ge signature) by lia. done.
  - rewrite length_app, length_take. lia.
  - lia.
Qed.

Lemma validate_bank_bad_signature :
  7 ≤ length f → take 7 f ≠ signature →
  validate_bank name signature header w
  = Exit EXIT_FAILURE (log (InvalidSignature name) w).
Proof.
  intros Hlen Hne. rewrite validate_bank_open, read_header by done.
  destruct (Z.eqb_spec (memcmp (take 7 f ++ drop 7 header) signature 7) 0) as [He|_].
  - by apply memcmp_header in He.
  - reflexivity.
Qed.

Lemma validated_length (s : ifstream) :
  failbit s = false →
  IStream.tellg (IStream.seekg_end s) = size (contents s)
  ∧ IStream.seekg (IStream.seekg_end s) 0 = Ifstream (contents s) 0 false false.
Proof.
  intros Hfail. unfold IStream.seekg_end. rewrite seekg_ok by done.
  split; [done|]. by rewrite (seekg_ok _ 0).
Qed.

Lemma validate_bank_bad_length :
  take 7 f = signature → size f ≠ 6363%Z →
  validate_bank name signature header w
  = Exit EXIT_FAILURE (log (InvalidLength name (size f)) w).
Proof.
  intros He Hne.
  assert (7 ≤ length f) as Hlen.
  { rewrite <- Hsig, <- He, length_take. lia. }
  rewrite validate_bank_open, read_header by done.
  destruct (Z.eqb_spec (memcmp (take 7 f ++ drop 7 header) signature 7) 0) as [_|Hm].
  2: by rewrite memcmp_header in Hm.
  cbn [negb].
  destruct (validated_length (Ifstream f 7 false false) eq_refl) as [-> ->].
  cbn [contents].
  destruct (Z.eqb_spec (size f) 6363); [done|]. reflexivity.
Qed.

Lemma validate_bank_ok :
  take 7 f = signature → size f = 6363%Z →
  validate_bank name signature header w
  = Ret (Ifstream f 0 false false, signature ++ drop 7 header) w.
Proof.
  intros He Hsz.
  assert (7 ≤ length f) as Hlen.
  { rewrite <- Hsig, <- He, length_take. lia. }
  rewrite validate_bank_open, read_header by done.
  destruct (Z.eqb_spec (memcmp (take 7 f ++ drop 7 header) signature 7) 0) as [_|Hm].
  2: by rewrite memcmp_header in Hm.
  cbn [negb].
  destruct (validated_length (Ifstream f 7 false false) eq_refl) as [-> ->].
  cbn [contents].
  destruct (Z.eqb_spec (size f) 6363); [|done]. by rewrite He.
Qed.
End validate_facts.

Lemma validate_bank_missing name signature header w :
  fs w name = None →
  validate_bank name signature header w = Exit EXIT_FAILURE (log (MissingFile name) w).
Proof.
  intros Hfs. unfold validate_bank, check_file_exists.
  unfold bind at 1. unfold IStream.open at 1. rewrite Hfs.
  unfold bind at 1. unfold bind at 1. unfold IStream.open at 1. rewrite Hfs.
  reflexivity.
Qed.

(** ** The output file *)

Section emitter_facts.

Lemma filename_eqb_refl (name : filename) : filename_eqb name name = true.
Proof. by destruct name. Qed.

Lemma filename_eqb_ne (a b : filename) : a ≠ b → filename_eqb a b = false.
Proof. by destruct a, b. Qed.

Lemma write_to_file_layout (data1 data2 : list Z) (name : filename) (w : world) :
  ∃ w', write_to_file data1 data2 name w = Ret tt w'
        ∧ fs w' name = Some ([0x89; 0x00]%Z ++ data1 ++ [0xAB; 0xCD]%Z ++ data2)
        ∧ (∀ other, other ≠ name → fs w' other = fs w other)
        ∧ cout w' = cout w ∧ cin w' = cin w.
Proof.
  cbv [write_to_file bind ofstream_open ofstream_write].
  eexists. split; [reflexivity|].
  cbn [fs set_fs cout cin]. repeat split.
  - rewrite !filename_eqb_refl. cbn [fmap option_fmap option_map].
    by rewrite <- !app_assoc.
  - intros other Hne. by rewrite !filename_eqb_ne by done.
Qed.

Lemma check_output_file_absent (name : filename) (w : world) :
  fs w name = None → check_output_file name w = Ret tt w.
Proof.
  intros Hfs. unfold check_output_file, bind, IStream.open. by rewrite Hfs.
Qed.

Lemma check_output_file_confirmed (name : filename) (w : world) old answer rest :
  fs w name = Some old → cin w = answer :: rest → answer = "Y" ∨ answer = "y" →
  ∃ w', check_output_file name w = Ret tt w'
        ∧ fs w' name = Some []
        ∧ (∀ other, other ≠ name → fs w' other = fs w other)
        ∧ cout w' = cout w ++ [OverwritePrompt; Wiped name].
Proof.
  intros Hfs Hcin Hans. eexists. split.
  - unfold check_output_file, bind, IStream.open. rewrite Hfs.
    cbn [IStream.good eofbit failbit negb andb print].
    unfold cin_read. cbn [log cin set_cout].
    rewrite Hcin. destruct Hans as [-> | ->]; reflexivity.
  - cbn [fs set_fs cout log set_cout set_cin cin]. repeat split.
    + by rewrite filename_eqb_refl.
    + intros other Hne. by rewrite filename_eqb_ne.
    + by rewrite <- app_assoc.
Qed.

Lemma check_output_file_declined (name : filename) (w : world) old :
  fs w name = Some old →
  (∀ answer rest, cin w = answer :: rest → answer ≠ "Y" ∧ answer ≠ "y") →
  ∃ w', check_output_file name w = Exit EXIT_FAILURE w'
        ∧ fs w' = fs w
        ∧ cout w' = cout w ++ [OverwritePrompt; Aborting].
Proof.
  intros Hfs Hcin.
  unfold check_output_file, bind, IStream.open. rewrite Hfs.
  cbn [IStream.good eofbit failbit negb andb print].
  unfold cin_read. cbn [log cin set_cout].
  destruct (cin w) as [|answer rest] eqn:Hin.
  - eexists. split; [reflexivity|]. split; [done|].
    cbn [cout log set_cout]. by rewrite <- app_assoc.
  - destruct (Hcin answer rest eq_refl) as [HY Hy].
    destruct (String.eqb_spec answer "Y"); [done|].
    destruct (String.eqb_spec answer "y"); [done|].
    eexists. split; [reflexivity|]. split; [done|].
    cbn [cout log set_cout set_cin]. by rewrite <- app_assoc.
Qed.

Lemma check_output_file_may_write (w : world) :
  may_write w →
  ∃ w', check_output_file Patfile w = Ret tt w'
        ∧ fs w' Bankfile1 = fs w Bankfile1 ∧ fs w' Bankfile2 = fs w Bankfile2.
Proof.
  intros [Hnone | (answer & rest & Hcin & Hans)].
  - exists w. by rewrite check_output_file_absent.
  - destruct (fs w Patfile) as [old|] eqn:Hfs.
    + destruct (check_output_file_confirmed Patfile w old answer rest)
        as (w' & Hrun & _ & Hother & _); [done..|].
      exists w'. split; [done|]. split; by apply Hother.
    + exists w. by rewrite check_output_file_absent.
Qed.

End emitter_facts.

(** ** [read_files] on arbitrary files *)

Section read_files_total.

Lemma read_window (file : ifstream) (pos : nat) (buf : list Z) :
  length buf = 128 →
  ∃ file' b, IStream.read (IStream.seekg file (Z.of_nat pos)) buf 128 = (file', b)
    ∧ length b = 128
    ∧ contents file' = contents file
    ∧ (failbit file = false → pos + 128 ≤ length (contents file) →
       failbit file' = false ∧ b = take 128 (drop pos (contents file))).
Proof.
  intros Hbuf.
  destruct (IStream.read (IStream.seekg file (Z.of_nat pos)) buf 128) as [file' b] eqn:Hread.
  pose proof (read_length (IStream.seekg file (Z.of_nat pos)) buf 128 Hbuf) as Hlen.
  pose proof (read_contents (IStream.seekg file (Z.of_nat pos)) buf 128) as Hc.
  rewrite Hread in Hlen, Hc. cbn [fst snd] in Hlen, Hc. rewrite seekg_contents in Hc.
  exists file', b. split; [done|]. split; [done|]. split; [done|].
  intros Hfail Hin. rewrite seekg_ok, read_full_array in Hread by (done || lia).
  by injection Hread as <- <-.
Qed.

Lemma read_files_loop_total (count : nat) :
  ∀ (pos1 pos2 : nat) (file1 file2 : ifstream) (data1 data2 : list Z) (w : world),
    ∃ file1' file2' t1 t2 w',
      read_files_loop count (Z.of_nat pos1) (Z.of_nat pos2) file1 file2 data1 data2 w
      = Ret (file1', file2', data1 ++ t1, data2 ++ t2) w'
      ∧ length t1 = 128 * count ∧ length t2 = 128 * count
      ∧ cout w' = cout w ∧ fs w' = fs w ∧ cin w' = cin w
      ∧ (failbit file1 = false → ∀ k, k < count → copied_window file1 pos1 t1 k)
      ∧ (failbit file2 = false → ∀ k, k < count → copied_window file2 pos2 t2 k).
Proof.
  induction count as [|count IH]; intros pos1 pos2 file1 file2 data1 data2 w.
  - exists file1, file2, [], [], w. cbn [read_files_loop]. unfold ret.
    rewrite !app_nil_r. repeat split; (done || intros; lia).
  - cbn [read_files_loop].
    unfold bind at 1, uninitialized at 1. unfold bind at 1, uninitialized at 1.
    destruct (read_window file1 pos1 (map (stack w) (seq (sp w) 128)))
      as (file1a & b1 & -> & Hb1 & Hc1 & Hw1); [apply uninitialized_length|].
    destruct (read_window file2 pos2
                (map (stack (alloc 128 w)) (seq (sp (alloc 128 w)) 128)))
      as (file2a & b2 & -> & Hb2 & Hc2 & Hw2); [apply uninitialized_length|].
    replace (Z.of_nat pos1 + 131)%Z with (Z.of_nat (pos1 + 131)) by lia.
    replace (Z.of_nat pos2 + 131)%Z with (Z.of_nat (pos2 + 131)) by lia.
    destruct (IH (pos1 + 131) (pos2 + 131) file1a file2a (data1 ++ b1) (data2 ++ b2)
                (alloc 128 (alloc 128 w)))
      as (file1' & file2' & t1 & t2 & w' & Hrun & Ht1 & Ht2 & Hcout & Hfs & Hcin & Hk1 & Hk2).
    exists file1', file2', (b1 ++ t1), (b2 ++ t2), w'.
    rewrite Hrun, !app_assoc, !length_app, Hb1, Hb2, Ht1, Ht2.
    split; [done|]. split; [lia|]. split; [lia|].
    split; [done|]. split; [done|]. split; [done|].
    split.
    + intros Hfail [|k] Hk Hin.
      * destruct Hw1 as [_ ->]; [done | lia |].
        rewrite Nat.mul_0_r, Nat.add_0_r, drop_0.
        rewrite take_app_le by (rewrite length_take, length_drop; lia).
        by rewrite take_take.
      * destruct Hw1 as [Hfail' _]; [done | lia |].
        replace (128 * S k) with (length b1 + 128 * k) by lia.
        rewrite drop_app_add. rewrite (Hk1 Hfail' k) by (rewrite ?Hc1; lia).
        rewrite Hc1. do 2 f_equal. lia.
    + intros Hfail [|k] Hk Hin.
      * destruct Hw2 as [_ ->]; [done | lia |].
        rewrite Nat.mul_0_r, Nat.add_0_r, drop_0.
        rewrite take_app_le by (rewrite length_take, length_drop; lia).
        by rewrite take_take.
      * destruct Hw2 as [Hfail' _]; [done | lia |].
        replace (128 * S k) with (length b2 + 128 * k) by lia.
        rewrite drop_app_add. rewrite (Hk2 Hfail' k) by (rewrite ?Hc2; lia).
        rewrite Hc2. do 2 f_equal. lia.
Qed.
End read_files_total.

(** ** [main] *)

Section main_facts.

Lemma main_enter (w : world) :
  main 4 w
  = (let* '(input_file1, header) :=
       validate_bank Bankfile1 bank_A_signature (map (stack w) (seq (sp w) 7)) in
     let* '(input_file2, header) := validate_bank Bankfile2 bank_B_signature header in
     check_output_file Patfile ;;
     let* '(input_file1, input_file2, data1, data2) :=
       read_files input_file1 input_file2 [] [] in
     transcode_and_write data1 data2 Patfile) (entered w).
Proof. reflexivity. Qed.

Lemma main_bank1_rejected (w w' : world) (code : Z) :
  validate_bank Bankfile1 bank_A_signature (map (stack w) (seq (sp w) 7)) (entered w)
  = Exit code w' →
  main 4 w = Exit code w'.
Proof. intros Hv. rewrite main_enter. unfold bind at 1. by rewrite Hv. Qed.

Lemma main_bank1_valid (w : world) (f1 : list Z) :
  valid_bank w Bankfile1 bank_A_signature f1 →
  main 4 w
  = (let* '(input_file2, header) :=
       validate_bank Bankfile2 bank_B_signature
         (bank_A_signature ++ drop 7 (map (stack w) (seq (sp w) 7))) in
     check_output_file Patfile ;;
     let* '(input_file1, input_file2, data1, data2) :=
       read_files (Ifstream f1 0 false false) input_file2 [] [] in
     transcode_and_write data1 data2 Patfile) (entered w).
Proof.
  intros (Hfs & Hsig & Hsz). rewrite main_enter. unfold bind at 1.
  by rewrite (validate_bank_ok Bankfile1 bank_A_signature _ (entered w) f1).
Qed.

Lemma main_bank2_rejected (w w' : world) (f1 : list Z) (code : Z) :
  valid_bank w Bankfile1 bank_A_signature f1 →
  validate_bank Bankfile2 bank_B_signature
    (bank_A_signature ++ drop 7 (map (stack w) (seq (sp w) 7))) (entered w)
  = Exit code w' →
  main 4 w = Exit code w'.
Proof.
  intros Hv1 Hv. rewrite (main_bank1_valid w f1) by done.
  unfold bind at 1. by rewrite Hv.
Qed.

Lemma main_validated (w : world) (f1 f2 : list Z) :
  valid_bank w Bankfile1 bank_A_signature f1 →
  valid_bank w Bankfile2 bank_B_signature f2 →
  main 4 w
  = (check_output_file Patfile ;;
     let* '(input_file1, input_file2, data1, data2) :=
       read_files (Ifstream f1 0 false false) (Ifstream f2 0 false false) [] [] in
     transcode_and_write data1 data2 Patfile) (entered w).
Proof.
  intros Hv1 (Hfs & Hsig & Hsz). rewrite (main_bank1_valid w f1) by done.
  unfold bind at 1.
  by rewrite (validate_bank_ok Bankfile2 bank_B_signature _ (entered w) f2).
Qed.

Lemma windows_size (f : list Z) : size f = 6363%Z → length (windows f) = 128 * 48.
Proof.
  unfold size. intros Hsz. rewrite windows_eq. apply windows_from_length.
  intros j Hj. lia.
Qed.

Lemma read_files_validated (f1 f2 : list Z) (file1 file2 : ifstream) (w : world) :
  contents file1 = f1 → failbit file1 = false → size f1 = 6363%Z →
  contents file2 = f2 → failbit file2 = false → size f2 = 6363%Z →
  ∃ file1' file2' w',
    read_files file1 file2 [] [] w = Ret (file1', file2', windows f1, windows f2) w'
    ∧ cout w' = cout w ∧ fs w' = fs w ∧ cin w' = cin w.
Proof.
  intros <- Hf1 Hs1 <- Hf2 Hs2. unfold size in Hs1, Hs2.
  apply (read_files_loop_in_bounds 48 0x4C 0x4C file1 file2 [] [] w); try done.
  - intros j Hj. lia.
  - intros j Hj. lia.
Qed.

Lemma transcode_and_write_mismatch (data1 data2 : list Z) (w : world) :
  length data1 ≠ length data2 →
  ∃ w', transcode_and_write data1 data2 Patfile w = Ret 0%Z w'
        ∧ fs w' Patfile = Some ([0x89; 0x00]%Z ++ data1 ++ [0xAB; 0xCD]%Z ++ data2)
        ∧ cout w' = cout w ++ [LengthMismatch (size data1) (size data2); Success].
Proof.
  intros Hne. unfold transcode_and_write. unfold bind at 1.
  rewrite reorganize_data_mismatch by done.
  destruct (write_to_file_layout data1 data2 Patfile
              (log (LengthMismatch (size data1) (size data2)) w))
    as (w' & Hrun & Hfs & _ & Hcout & _).
  exists (log Success w'). unfold bind at 1. rewrite Hrun.
  split; [done|]. split; [done|].
  cbn [cout log set_cout] in *. rewrite Hcout. by rewrite <- app_assoc.
Qed.

Lemma transcode_and_write_correct (data1 data2 : list Z) (w : world) :
  length data1 = length data2 → Nat.Even (length data1) → fits_int (size data1) →
  ∃ w', transcode_and_write data1 data2 Patfile w = Ret 0%Z w'
        ∧ fs w' Patfile
          = Some ([0x89; 0x00]%Z ++ merge_pairs data1 ++ [0xAB; 0xCD]%Z ++ merge_pairs data2)
        ∧ cout w' = cout (after_size_check data1 data2 w) ++ [Success].
Proof.
  intros Heq Hev Hfit. unfold transcode_and_write. unfold bind at 1.
  rewrite reorganize_data_correct by done.
  destruct (write_to_file_layout (merge_pairs data1) (merge_pairs data2) Patfile
              (after_size_check data1 data2 w))
    as (w' & Hrun & Hfs & _ & Hcout & _).
  exists (log Success w'). unfold bind at 1. rewrite Hrun.
  split; [done|]. split; [done|].
  cbn [cout log set_cout]. by rewrite Hcout.
Qed.

Lemma may_write_entered (w : world) : may_write w → may_write (entered w).
Proof. done. Qed.

(** The whole run on a valid pair of banks. *)
Lemma main_converts (w : world) (f1 f2 : list Z) :
  valid_bank w Bankfile1 bank_A_signature f1 →
  valid_bank w Bankfile2 bank_B_signature f2 →
  may_write w →
  ∃ w', main 4 w = Ret 0%Z w'
        ∧ fs w' Patfile
          = Some ([0x89; 0x00]%Z ++ merge_pairs (windows f1)
                  ++ [0xAB; 0xCD]%Z ++ merge_pairs (windows f2)).
Proof.
  intros Hv1 Hv2 Hmay. rewrite (main_validated w f1 f2) by done.
  destruct (check_output_file_may_write (entered w) (may_write_entered w Hmay))
    as (w1 & Hcheck & _ & _).
  unfold bind at 1. rewrite Hcheck.
  destruct Hv1 as (_ & _ & Hs1), Hv2 as (_ & _ & Hs2).
  destruct (read_files_validated f1 f2 (Ifstream f1 0 false false)
              (Ifstream f2 0 false false) w1) as (file1' & file2' & w2 & Hread & _);
    [done..|].
  unfold bind at 1. rewrite Hread.
  pose proof (windows_size f1 Hs1) as Hl1. pose proof (windows_size f2 Hs2) as Hl2.
  destruct (transcode_and_write_correct (windows f1) (windows f2) w2)
    as (w' & Hrun & Hfs & _).
  - congruence.
  - rewrite Hl1. exists (64 * 48). lia.
  - unfold fits_int, size, INT_MAX. rewrite Hl1. lia.
  - exists w'. by rewrite Hrun.
Qed.

End main_facts.

(** ** Bounds of the vector accesses *)

Section bounds_facts.

Lemma vec_at_in_range (v : list Z) (i : Z) : is_Some (vec_at v i) ↔ in_range v i.
Proof. apply vec_at_is_Some. Qed.

Lemma vec_set_in_range (v : list Z) (i x : Z) : is_Some (vec_set v i x) ↔ in_range v i.
Proof. apply vec_set_is_Some. Qed.

(** An iteration runs without fault exactly when its two reads and its
    two writes are inside the vector. *)
Lemma step1_is_Some (i : Z) (b : list Z) :
  is_Some (step1 i b)
  ↔ in_range b i ∧ in_range b (i + 1) ∧ in_range b (i ÷ 2) ∧ in_range b (i ÷ 2 + 1).
Proof.
  unfold step1. split.
  - intros [b' Hb'].
    destruct (vec_at b i) as [h|] eqn:Hh; [|discriminate].
    destruct (vec_at b (i + 1)) as [l|] eqn:Hl; [|discriminate].
    cbn [mbind option_bind] in Hb'.
    destruct (vec_set b (i ÷ 2) (nibble_merge h l)) as [b1|] eqn:H1; [|discriminate].
    cbn [mbind option_bind] in Hb'.
    refine (conj _ (conj _ (conj _ _))).
    + apply vec_at_in_range. by rewrite Hh.
    + apply vec_at_in_range. by rewrite Hl.
    + apply (vec_set_in_range b _ (nibble_merge h l)). by rewrite H1.
    + apply vec_set_length in H1. unfold in_range, size. rewrite <- H1.
      apply (vec_set_in_range b1 _ 0%Z). by rewrite Hb'.
  - intros (Hi & Hi1 & Hq & Hq1).
    apply vec_at_in_range in Hi as [h ->]. apply vec_at_in_range in Hi1 as [l ->].
    cbn [mbind option_bind].
    apply (vec_set_in_range b _ (nibble_merge h l)) in Hq as [b1 H1]. rewrite H1.
    cbn [mbind option_bind]. apply vec_set_in_range.
    apply vec_set_length in H1. unfold in_range, size in *. by rewrite H1.
Qed.

Lemma loop_body_is_Some (i : Z) (b1 b2 : list Z) :
  is_Some (loop_body i (b1, b2)) ↔ is_Some (step1 i b1) ∧ is_Some (step1 i b2).
Proof.
  rewrite loop_body_split. split.
  - intros [r Hr]. destruct (step1 i b1); [|discriminate].
    destruct (step1 i b2); [|discriminate]. eauto.
  - intros [[r1 ->] [r2 ->]]. eauto.
Qed.

(** For an even index inside a vector of even size, all four indices are
    inside, and the two written ones are in the front half. *)
Lemma even_index_in_range (v : list Z) (i : Z) :
  Nat.Even (length v) → in_range v i → Z.Even i →
  in_range v i ∧ in_range v (i + 1) ∧ in_range v (i ÷ 2) ∧ in_range v (i ÷ 2 + 1)
  ∧ (i ÷ 2 + 1 <= size v / 2 < size v)%Z.
Proof.
  unfold in_range, size. intros [m Hm] Hi [j Hj]. rewrite Hm in *.
  rewrite Z.quot_div_nonneg by lia. subst i.
  rewrite (Z.mul_comm 2 j), Z.div_mul by lia.
  replace (Z.of_nat (2 * m) / 2)%Z with (Z.of_nat m)
    by (rewrite Nat2Z.inj_mul, Z.mul_comm, Z.div_mul; lia).
  lia.
Qed.

End bounds_facts.

(** ** Rejected inputs, and the layout of the output *)

Section rejection_facts.

Lemma validate_bank_cases (name : filename) (signature header : list Z) (w : world) :
  (∃ s h, validate_bank name signature header w = Ret (s, h) w)
  ∨ (∃ m, validate_bank name signature header w = Exit EXIT_FAILURE (log m w)).
Proof.
  destruct (fs w name) as [f|] eqn:Hfs.
  - rewrite (validate_bank_open name signature header w f Hfs).
    destruct (IStream.read _ header 7) as [s h].
    destruct (memcmp h signature 7 =? 0)%Z; cbn [negb]; [|right; by eexists].
    destruct (IStream.tellg _ =? 6363)%Z; cbn [negb];
      [left; by do 2 eexists | right; by eexists].
  - right. eexists. by apply validate_bank_missing.
Qed.

(** A failure of either validation ends the run before the output file
    is looked at. *)
Lemma main_bank1_fails (w : world) (m : message) :
  validate_bank Bankfile1 bank_A_signature (map (stack w) (seq (sp w) 7)) (entered w)
  = Exit EXIT_FAILURE (log m (entered w)) →
  ∃ w', main 4 w = Exit EXIT_FAILURE w'
        ∧ cout w' = cout w ++ [Banner; m] ∧ fs w' = fs w.
Proof.
  intros Hv. exists (log m (entered w)). split; [by apply main_bank1_rejected|].
  split; [|done]. cbn [cout log set_cout entered alloc set_sp].
  by rewrite <- app_assoc.
Qed.

Lemma main_bank2_fails (w : world) :
  (∀ header, ∃ m, validate_bank Bankfile2 bank_B_signature header (entered w)
                  = Exit EXIT_FAILURE (log m (entered w))) →
  ∃ w', main 4 w = Exit EXIT_FAILURE w' ∧ fs w' = fs w.
Proof.
  intros Hv. rewrite main_enter. unfold bind at 1.
  destruct (validate_bank_cases Bankfile1 bank_A_signature
              (map (stack w) (seq (sp w) 7)) (entered w)) as [(s & h & ->)|(m & ->)];
    [|eauto].
  unfold bind at 1. destruct (Hv h) as [m ->]. eauto.
Qed.

Lemma main_bank2_fails_after_bank1 (w : world) (f1 : list Z) (m : message) :
  valid_bank w Bankfile1 bank_A_signature f1 →
  (∀ header, validate_bank Bankfile2 bank_B_signature header (entered w)
             = Exit EXIT_FAILURE (log m (entered w))) →
  ∃ w', main 4 w = Exit EXIT_FAILURE w'
        ∧ cout w' = cout w ++ [Banner; m] ∧ fs w' = fs w.
Proof.
  intros Hv1 Hv. exists (log m (entered w)).
  split; [by apply (main_bank2_rejected w _ f1)|].
  split; [|done]. cbn [cout log set_cout entered alloc set_sp].
  by rewrite <- app_assoc.
Qed.

End rejection_facts.

Section layout_facts.


Lemma windows_from_lookup (bank : list Z) (count : nat) :
  ∀ pos k j,
    (∀ i, i < count → pos + 131 * i + 128 ≤ length bank) →
    k < count → j < 128 →
    windows_from bank pos count !! (128 * k + j) = bank !! (pos + 131 * k + j).
Proof.
  induction count as [|count IH]; intros pos k j Hin Hk Hj; [lia|].
  rewrite windows_from_S.
  assert (length (take 128 (drop pos bank)) = 128) as Hlen.
  { rewrite length_take, length_drop. specialize (Hin 0). lia. }
  destruct k as [|k].
  - rewrite lookup_app_l by lia.
    rewrite lookup_take_lt, lookup_drop by lia. f_equal. lia.
  - rewrite lookup_app_r by lia. rewrite Hlen.
    replace (128 * S k + j - 128) with (128 * k + j) by lia.
    rewrite IH; [f_equal; lia | | lia | done].
    intros i Hi. specialize (Hin (S i)). lia.
Qed.


End layout_facts.

(** ** Fuel, and buffers of odd size *)

Section merge_loop_fuel.

(** Once there is enough fuel for the iterations that remain, more fuel
    changes nothing: a result [None] is a fault of the program. *)
Lemma merge_loop_fuel (fuel : nat) :
  ∀ (fuel' : nat) (i n : Z) (data : list Z * list Z),
    0 < fuel → (n - i < 2 * Z.of_nat fuel - 1)%Z →
    0 < fuel' → (n - i < 2 * Z.of_nat fuel' - 1)%Z →
    merge_loop fuel i n data = merge_loop fuel' i n data.
Proof.
  induction fuel as [|fuel IH]; intros fuel' i n data Hpos Hfuel Hpos' Hfuel'; [lia|].
  destruct fuel' as [|fuel']; [lia|]. cbn [merge_loop].
  destruct (Z.ltb_spec i n) as [Hlt|Hge]; [|done].
  destruct (loop_body i data) as [data'|]; [|done]. cbn [mbind option_bind].
  destruct (i + 2 >? INT_MAX)%Z; [done|].
  apply IH; lia.
Qed.

Lemma static_cast_int_le (n : Z) : (0 <= n → static_cast_int n <= n)%Z.
Proof.
  intros Hn. unfold static_cast_int.
  pose proof (Z.mod_le (n + 2147483648) 4294967296). lia.
Qed.

(** The loop bound for a vector of even size: not positive, or an even
    number that is at most the size. *)
Lemma static_cast_int_cases (v : list Z) :
  Nat.Even (length v) →
  (static_cast_int (size v) <= 0)%Z
  ∨ ∃ m : nat, static_cast_int (size v) = Z.of_nat (2 * m)
               ∧ 2 * m ≤ length v ∧ fits_int (Z.of_nat (2 * m)).
Proof.
  intros [j Hj].
  destruct (Z.le_gt_cases (static_cast_int (size v)) 0) as [Hneg|Hpos]; [by left|].
  right. pose proof (static_cast_int_le (size v)) as Hle.
  unfold static_cast_int, size, fits_int, INT_MAX in *. rewrite Hj in *.
  pose proof (Z.div_mod (Z.of_nat (2 * j) + 2147483648) 4294967296 ltac:(lia)) as Hdm.
  pose proof (Z.mod_pos_bound (Z.of_nat (2 * j) + 2147483648) 4294967296 ltac:(lia)) as Hb.
  set (q := ((Z.of_nat (2 * j) + 2147483648) / 4294967296)%Z) in *.
  set (r := ((Z.of_nat (2 * j) + 2147483648) mod 4294967296)%Z) in *.
  exists (Z.to_nat (Z.of_nat j - 2147483648 * q)). lia.
Qed.

Lemma denibblize_fuel (data1 data2 : list Z) (extra : nat) :
  merge_loop (S (length data1) + extra) 0 (static_cast_int (size data1)) (data1, data2)
  = merge_loop (S (length data1)) 0 (static_cast_int (size data1)) (data1, data2).
Proof.
  pose proof (static_cast_int_le (size data1)) as Hle. unfold size in *.
  apply merge_loop_fuel; lia.
Qed.

(** On buffers of odd size the last iteration reads one byte past the
    end. *)
Lemma merge_loop_odd (orig1 orig2 : list Z) (m : nat) :
  length orig1 = 2 * m + 1 → length orig2 = 2 * m + 1 →
  ∀ fuel k b1 b2,
    k ≤ m → merged_upto orig1 b1 k → merged_upto orig2 b2 k →
    merge_loop fuel (Z.of_nat (2 * k)) (Z.of_nat (2 * m + 1)) (b1, b2) = None.
Proof.
  intros Hlen1 Hlen2.
  induction fuel as [|fuel IH]; intros k b1 b2 Hk H1 H2; [done|].
  cbn [merge_loop].
  destruct (Z.ltb_spec (Z.of_nat (2 * k)) (Z.of_nat (2 * m + 1))) as [_|Hge]; [|lia].
  destruct (decide (k = m)) as [->|Hne].
  - rewrite loop_body_split.
    assert (step1 (Z.of_nat (2 * m)) b1 = None) as ->; [|done].
    destruct (step1 (Z.of_nat (2 * m)) b1) as [b1'|] eqn:Hs; [|done].
    assert (is_Some (step1 (Z.of_nat (2 * m)) b1)) as Hsome by (by rewrite Hs).
    apply step1_is_Some in Hsome as (_ & Hin & _).
    destruct H1 as (Hb1 & _). unfold in_range, size in Hin. lia.
  - destruct (step1_merged orig1 b1 k H1) as (b1' & Hs1 & H1'); [lia|].
    destruct (step1_merged orig2 b2 k H2) as (b2' & Hs2 & H2'); [lia|].
    rewrite loop_body_split, Hs1, Hs2. cbn [mbind option_bind].
    destruct (Z.of_nat (2 * k) + 2 >? INT_MAX)%Z; [done|].
    replace (Z.of_nat (2 * k) + 2)%Z with (Z.of_nat (2 * S k)) by lia.
    apply IH; [lia | done | done].
Qed.

Lemma denibblize_odd (data1 data2 : list Z) (w : world) :
  length data1 = length data2 → Nat.Odd (length data1) → fits_int (size data1) →
  denibblize data1 data2 w = Undefined.
Proof.
  intros Heq [m Hm] Hfit. unfold denibblize.
  rewrite static_cast_int_small by done. unfold size. rewrite Hm.
  change 0%Z with (Z.of_nat (2 * 0)).
  by rewrite (merge_loop_odd data1 data2 m Hm ltac:(congruence) _ 0 data1 data2 ltac:(lia)
                (merged_upto_init data1) (merged_upto_init data2)).
Qed.

End merge_loop_fuel.

(** ** The code on concrete inputs *)

Section examples.

Example nibble_merge_3F_A2 : nibble_merge 0x3F 0xA2 = 0x2F%Z.
Proof. reflexivity. Qed.

(** A negative [char] (here -1, all bits set) gives the same nibble. *)
Example nibble_merge_signed : nibble_merge (-1) (-94) = nibble_merge 0xFF 0xA2.
Proof. reflexivity. Qed.

Example reorganize_four_bytes :
  reorganize_data [0x3F; 0xA2; 0x01; 0x0E]%Z [0x00; 0x01; 0xFF; 0x80]%Z
    (sample_world None None None [])
  = Ret ([0x2F; 0xE1]%Z, [0x10; 0x0F]%Z)
        (log (UnexpectedLength 4 4) (sample_world None None None [])).
Proof. reflexivity. Qed.

Example reorganize_empty :
  reorganize_data [] [] (sample_world None None None [])
  = Ret ([], []) (log (UnexpectedLength 0 0) (sample_world None None None [])).
Proof. reflexivity. Qed.

Example reorganize_odd_size :
  reorganize_data [0x01; 0x02; 0x03]%Z [0x04; 0x05; 0x06]%Z
    (sample_world None None None []) = Undefined.
Proof. reflexivity. Qed.

Example sample_bank_size : size sample_bank_A = 6363%Z ∧ size sample_bank_B = 6363%Z.
Proof. split; vm_compute; reflexivity. Qed.

Example first_window_merged :
  merge_pairs (window sample_bank_A 0) = replicate 64 0x10%Z.
Proof. vm_compute. reflexivity. Qed.

Example main_usage :
  ∃ w', main 3 (sample_world None None None []) = Ret 1%Z w'
        ∧ cout w' = [Banner; Usage].
Proof. eexists. split; reflexivity. Qed.

Example main_missing_file :
  ∃ w', main 4 (sample_world None (Some sample_bank_B) None []) = Exit EXIT_FAILURE w'
        ∧ cout w' = [Banner; MissingFile Bankfile1].
Proof. eexists. split; reflexivity. Qed.

Example main_overwrite_declined :
  observe (main 4 (sample_world (Some sample_bank_A) (Some sample_bank_B)
                     (Some [0x42%Z]) ["n"]))
  = (Some (inr EXIT_FAILURE), [Banner; OverwritePrompt; Aborting], Some [0x42%Z]).
Proof. vm_compute. reflexivity. Qed.

(** The round trip of the specification: every byte of both transcoded
    banks is [0x10]. *)
Example merged_sample_windows :
  merge_pairs (windows sample_bank_A) = replicate 3072 0x10%Z
  ∧ merge_pairs (windows sample_bank_B) = replicate 3072 0x10%Z.
Proof. split; vm_compute; reflexivity. Qed.

Example main_round_trip :
  let w := sample_world (Some sample_bank_A) (Some sample_bank_B) None [] in
  ∃ w', main 4 w = Ret 0%Z w'
        ∧ fs w' Patfile
          = Some ([0x89; 0x00]%Z ++ replicate 3072 0x10%Z
                  ++ [0xAB; 0xCD]%Z ++ replicate 3072 0x10%Z).
Proof.
  intros w.
  destruct (main_converts w sample_bank_A sample_bank_B) as (w' & Hrun & Hfs).
  - split; [reflexivity|]. split; [reflexivity|]. vm_compute. reflexivity.
  - split; [reflexivity|]. split; [reflexivity|]. vm_compute. reflexivity.
  - by left.
  - exists w'. split; [done|].
    destruct merged_sample_windows as [HA HB]. by rewrite Hfs, HA, HB.
Qed.

End examples.

(** * The claims *)

(** C1. For two extracted buffers of the same (even) length and every even
    index [i], the byte of the output at position [i / 2] is
    [((buffer[i+1] & 0x0F) << 4) | (buffer[i] & 0x0F)], computed from the
    original bytes of the pair: its high nibble is the low nibble of the
    second byte and its low nibble is the low nibble of the first byte.
    The pair [0x3F, 0xA2] is merged to [0x2F]. *)
Theorem transcoder_merged_byte (data1 data2 : list Z) (w : world) (i : nat)
    (high1 low1 high2 low2 : Z) :
  length data1 = length data2 → Nat.Even (length data1) → fits_int (size data1) →
  Nat.Even i →
  data1 !! i = Some high1 → data1 !! (i + 1) = Some low1 →
  data2 !! i = Some high2 → data2 !! (i + 1) = Some low2 →
  ∃ out1 out2 w',
    reorganize_data data1 data2 w = Ret (out1, out2) w'
    ∧ out1 !! (i / 2) = Some (Z.lor (Z.shiftl (Z.land low1 0x0F) 4) (Z.land high1 0x0F))
    ∧ out2 !! (i / 2) = Some (Z.lor (Z.shiftl (Z.land low2 0x0F) 4) (Z.land high2 0x0F))
    ∧ nibble_merge 0x3F 0xA2 = 0x2F%Z
    ∧ (∀ high low : Z,
         let merged := Z.lor (Z.shiftl (Z.land low 0x0F) 4) (Z.land high 0x0F) in
         nibble_merge high low = merged
         ∧ (merged / 16 = low mod 16)%Z ∧ (merged mod 16 = high mod 16)%Z).
Proof.
  intros Heq Hev Hfit [k ->] Hh1 Hl1 Hh2 Hl2.
  exists (merge_pairs data1), (merge_pairs data2), (after_size_check data1 data2 w).
  split; [by apply reorganize_data_correct|].
  replace (2 * k / 2) with k by (rewrite Nat.mul_comm, Nat.div_mul; lia).
  rewrite <- !nibble_merge_bits.
  split; [by apply merge_pairs_lookup|]. split; [by apply merge_pairs_lookup|].
  split; [reflexivity|].
  intros high low merged. subst merged. rewrite <- nibble_merge_bits.
  split; [done|]. split; [apply nibble_merge_high | apply nibble_merge_low].
Qed.

Lemma transcoder_merged_byte_witness :
  ∃ out1 out2 w',
    reorganize_data [0x11; 0x22; 0x3F; 0xA2]%Z [0x01; 0x02; 0x03; 0x04]%Z
      (sample_world None None None []) = Ret (out1, out2) w'
    ∧ out1 !! (2 / 2) = Some (Z.lor (Z.shiftl (Z.land 0xA2 0x0F) 4) (Z.land 0x3F 0x0F))
    ∧ out2 !! (2 / 2) = Some (Z.lor (Z.shiftl (Z.land 0x04 0x0F) 4) (Z.land 0x03 0x0F))
    ∧ nibble_merge 0x3F 0xA2 = 0x2F%Z
    ∧ (∀ high low : Z,
         let merged := Z.lor (Z.shiftl (Z.land low 0x0F) 4) (Z.land high 0x0F) in
         nibble_merge high low = merged
         ∧ (merged / 16 = low mod 16)%Z ∧ (merged mod 16 = high mod 16)%Z).
Proof.
  apply (transcoder_merged_byte [0x11; 0x22; 0x3F; 0xA2]%Z [0x01; 0x02; 0x03; 0x04]%Z
           (sample_world None None None []) 2 0x3F 0xA2 0x03 0x04).
  - reflexivity.
  - exists 2. reflexivity.
  - unfold fits_int, size, INT_MAX. simpl. lia.
  - exists 1. reflexivity.
  - reflexivity.
  - reflexivity.
  - reflexivity.
  - reflexivity.
Defined.

(** C3. For buffers of even length, the in-place transform of the source
    (merged byte at [i / 2], zero byte at [i / 2 + 1], truncation to half
    the size) returns exactly what the pure function of the specification
    returns: one merged byte per pair, in the order of the pairs. *)
Theorem inplace_transform_refines_merge_pairs (data1 data2 : list Z) (w : world) :
  length data1 = length data2 → Nat.Even (length data1) → fits_int (size data1) →
  reorganize_data data1 data2 w
  = Ret (merge_pairs data1, merge_pairs data2) (after_size_check data1 data2 w)
  ∧ length (merge_pairs data1) = length data1 / 2
  ∧ length (merge_pairs data2) = length data2 / 2.
Proof.
  intros Heq Hev Hfit. split; [by apply reorganize_data_correct|].
  split; apply merge_pairs_length.
Qed.

Lemma inplace_transform_refines_merge_pairs_witness :
  reorganize_data [0x3F; 0xA2; 0x01; 0x0E]%Z [0x00; 0x01; 0xFF; 0x80]%Z
    (sample_world None None None [])
  = Ret (merge_pairs [0x3F; 0xA2; 0x01; 0x0E]%Z, merge_pairs [0x00; 0x01; 0xFF; 0x80]%Z)
        (after_size_check [0x3F; 0xA2; 0x01; 0x0E]%Z [0x00; 0x01; 0xFF; 0x80]%Z
           (sample_world None None None []))
  ∧ length (merge_pairs [0x3F; 0xA2; 0x01; 0x0E]%Z) = 4 / 2
  ∧ length (merge_pairs [0x00; 0x01; 0xFF; 0x80]%Z) = 4 / 2.
Proof.
  apply (inplace_transform_refines_merge_pairs
           [0x3F; 0xA2; 0x01; 0x0E]%Z [0x00; 0x01; 0xFF; 0x80]%Z).
  - reflexivity.
  - exists 2. reflexivity.
  - unfold fits_int, size, INT_MAX. simpl. lia.
Defined.

(** C9. When the two buffers have the same size and it is not 6144, the
    transcoder prints the diagnostic and goes on: the transform and the
    truncation are performed, and the run ends with status 0. *)
Theorem unexpected_length_not_fatal (data1 data2 : list Z) (w : world) :
  length data1 = length data2 → size data1 ≠ 6144%Z →
  reorganize_data data1 data2 w
  = denibblize data1 data2 (log (UnexpectedLength (size data1) (size data2)) w)
  ∧ (Nat.Even (length data1) → fits_int (size data1) →
     reorganize_data data1 data2 w
     = Ret (merge_pairs data1, merge_pairs data2)
           (log (UnexpectedLength (size data1) (size data2)) w)
     ∧ ∃ w', transcode_and_write data1 data2 Patfile w = Ret 0%Z w'
             ∧ cout w' = cout w ++ [UnexpectedLength (size data1) (size data2); Success]
             ∧ fs w' Patfile
               = Some ([0x89; 0x00]%Z ++ merge_pairs data1
                       ++ [0xAB; 0xCD]%Z ++ merge_pairs data2)).
Proof.
  intros Heq Hne. split; [by apply reorganize_data_unexpected|].
  intros Hev Hfit.
  assert (after_size_check data1 data2 w
          = log (UnexpectedLength (size data1) (size data2)) w) as Hw.
  { unfold after_size_check. by rewrite decide_False. }
  split; [by rewrite reorganize_data_correct, Hw|].
  destruct (transcode_and_write_correct data1 data2 w Heq Hev Hfit)
    as (w' & Hrun & Hfs & Hcout).
  exists w'. split; [done|]. split; [|done].
  rewrite Hcout, Hw. cbn [cout log set_cout]. by rewrite <- app_assoc.
Qed.

Lemma unexpected_length_not_fatal_witness :
  let w := sample_world None None None [] in
  reorganize_data [0x3F; 0xA2]%Z [0x01; 0x02]%Z w
  = Ret (merge_pairs [0x3F; 0xA2]%Z, merge_pairs [0x01; 0x02]%Z)
        (log (UnexpectedLength 2 2) w)
  ∧ ∃ w', transcode_and_write [0x3F; 0xA2]%Z [0x01; 0x02]%Z Patfile w = Ret 0%Z w'
          ∧ cout w' = cout w ++ [UnexpectedLength 2 2; Success]
          ∧ fs w' Patfile
            = Some ([0x89; 0x00]%Z ++ merge_pairs [0x3F; 0xA2]%Z
                    ++ [0xAB; 0xCD]%Z ++ merge_pairs [0x01; 0x02]%Z).
Proof.
  intros w.
  apply (unexpected_length_not_fatal [0x3F; 0xA2]%Z [0x01; 0x02]%Z w).
  - reflexivity.
  - unfold size. simpl. lia.
  - exists 1. reflexivity.
  - unfold fits_int, size, INT_MAX. simpl. lia.
Defined.

(** C10. For two buffers of the same even length, every index that the
    in-place pass uses is inside the buffers: for each even [i] below the
    size, the reads at [i] and [i + 1] and the writes at [i / 2] and
    [i / 2 + 1] are in range (the written ones within the front half), so
    that each iteration, and the whole pass, runs without fault. *)
Theorem inplace_accesses_in_bounds (data1 data2 : list Z) :
  length data1 = length data2 → Nat.Even (length data1) →
  (∀ i : Z, in_range data1 i → Z.Even i →
     (in_range data1 i ∧ in_range data1 (i + 1)
      ∧ in_range data1 (i ÷ 2) ∧ in_range data1 (i ÷ 2 + 1)
      ∧ (i ÷ 2 + 1 <= size data1 / 2 < size data1)%Z)
     ∧ ∀ b1 b2, length b1 = length data1 → length b2 = length data1 →
                is_Some (loop_body i (b1, b2)))
  ∧ ∃ b1 b2,
      merge_loop (S (length data1)) 0 (static_cast_int (size data1)) (data1, data2)
      = Some (b1, b2)
      ∧ length b1 = length data1 ∧ length b2 = length data2.
Proof.
  intros Heq Hev. split.
  - intros i Hi Hei. split; [by apply even_index_in_range|].
    intros b1 b2 Hb1 Hb2. apply loop_body_is_Some.
    assert (∀ b, length b = length data1 → is_Some (step1 i b)) as Hstep.
    { intros b Hb. apply step1_is_Some.
      destruct (even_index_in_range b i) as (? & ? & ? & ? & _); try done.
      - by rewrite Hb.
      - unfold in_range, size in *. by rewrite Hb. }
    split; by apply Hstep.
  - destruct (static_cast_int_cases data1 Hev) as [Hneg|(m & Hm & Hle & Hfit)].
    + exists data1, data2. cbn [merge_loop].
      destruct (Z.ltb_spec 0 (static_cast_int (size data1))); [lia|done].
    + rewrite Hm.
      destruct (merge_loop_merged data1 data2 m) with (fuel := S (length data1))
        (k := 0) (b1 := data1) (b2 := data2) as (b1 & b2 & Hrun & H1 & H2);
        [lia | lia | done | lia | lia
         | apply merged_upto_init | apply merged_upto_init |].
      exists b1, b2. split; [exact Hrun|].
      destruct H1 as (-> & _), H2 as (-> & _). done.
Qed.

Lemma inplace_accesses_in_bounds_witness :
  let data1 := [0x3F; 0xA2; 0x01; 0x0E]%Z in
  let data2 := [0x00; 0x01; 0xFF; 0x80]%Z in
  is_Some (loop_body 2 (data1, data2))
  ∧ ∃ b1 b2,
      merge_loop (S (length data1)) 0 (static_cast_int (size data1)) (data1, data2)
      = Some (b1, b2)
      ∧ length b1 = length data1 ∧ length b2 = length data2.
Proof.
  intros data1 data2.
  destruct (inplace_accesses_in_bounds data1 data2) as [Hbody Hrun].
  - reflexivity.
  - exists 2. reflexivity.
  - split; [|exact Hrun].
    apply (Hbody 2%Z).
    + unfold in_range, size. simpl. lia.
    + exists 1%Z. reflexivity.
    + reflexivity.
    + reflexivity.
Defined.

(** C4. For two validated bank files of 6363 bytes, the extractor returns,
    for each, the 6144 bytes made of the 48 windows of 128 bytes that start
    at offset [0x4C + 131 * k]: byte [j] of window [k] is byte
    [0x4C + 131 * k + j] of the file, and the 3 bytes after each window
    appear nowhere. *)
Theorem extractor_windows (file1 file2 : ifstream) (w : world) :
  failbit file1 = false → size (contents file1) = 6363%Z →
  failbit file2 = false → size (contents file2) = 6363%Z →
  ∃ file1' file2' w',
    read_files file1 file2 [] [] w
    = Ret (file1', file2', windows (contents file1), windows (contents file2)) w'
    ∧ size (windows (contents file1)) = 6144%Z
    ∧ size (windows (contents file2)) = 6144%Z
    ∧ (∀ k j, k < 48 → j < 128 →
         windows (contents file1) !! (128 * k + j) = contents file1 !! (0x4C + 131 * k + j))
    ∧ (∀ k j, k < 48 → j < 128 →
         windows (contents file2) !! (128 * k + j) = contents file2 !! (0x4C + 131 * k + j)).
Proof.
  intros Hf1 Hs1 Hf2 Hs2.
  destruct (read_files_validated (contents file1) (contents file2) file1 file2 w)
    as (file1' & file2' & w' & Hrun & _); [done..|].
  exists file1', file2', w'. split; [done|].
  pose proof (windows_size _ Hs1) as Hl1. pose proof (windows_size _ Hs2) as Hl2.
  split; [unfold size; rewrite Hl1; reflexivity|].
  split; [unfold size; rewrite Hl2; reflexivity|].
  unfold size in Hs1, Hs2.
  split; intros k j Hk Hj; rewrite windows_eq; apply windows_from_lookup;
    try done; intros i Hi; lia.
Qed.

Lemma extractor_windows_witness :
  let file1 := Ifstream sample_bank_A 0 false false in
  let file2 := Ifstream sample_bank_B 0 false false in
  ∃ file1' file2' w',
    read_files file1 file2 [] [] (sample_world None None None [])
    = Ret (file1', file2', windows sample_bank_A, windows sample_bank_B) w'
    ∧ size (windows sample_bank_A) = 6144%Z
    ∧ size (windows sample_bank_B) = 6144%Z
    ∧ (∀ k j, k < 48 → j < 128 →
         windows sample_bank_A !! (128 * k + j) = sample_bank_A !! (0x4C + 131 * k + j))
    ∧ (∀ k j, k < 48 → j < 128 →
         windows sample_bank_B !! (128 * k + j) = sample_bank_B !! (0x4C + 131 * k + j)).
Proof.
  intros file1 file2.
  apply (extractor_windows file1 file2 (sample_world None None None [])).
  - reflexivity.
  - vm_compute. reflexivity.
  - reflexivity.
  - vm_compute. reflexivity.
Defined.






(** C6, as stated, fails: on a file of 100 bytes, whose first window would
    end at offset 204, the extractor reports nothing and returns 6144
    bytes as for any other file: the 24 bytes that the file has from
    offset [0x4C] on, and then whatever the buffers held. *)
Lemma extractor_truncated_read_counterexample :
  let file := Ifstream short_bank 0 false false in
  let w := sample_world (Some short_bank) (Some short_bank) None [] in
  let data := replicate 24 0x55%Z ++ replicate 104 0xCC%Z ++ replicate (47 * 128) 0xCC%Z in
  length short_bank < 0x4C + 131 * 0 + 128
  ∧ extracted (read_files file file [] [] w) = Some (data, data, [])
  ∧ size data = 6144%Z.
Proof.
  intros file w data. split; [vm_compute; lia|].
  split; vm_compute; reflexivity.
Qed.

(** C6, amended. The extractor has no failure of its own: for all files
    it returns 6144 bytes per bank, prints nothing and writes nothing, and
    every window that lies inside its file is copied exactly, at offset
    [128 * k] of the result. *)
Theorem extractor_never_fails (file1 file2 : ifstream) (w : world) :
  ∃ file1' file2' data1 data2 w',
    read_files file1 file2 [] [] w = Ret (file1', file2', data1, data2) w'
    ∧ size data1 = 6144%Z ∧ size data2 = 6144%Z
    ∧ cout w' = cout w ∧ fs w' = fs w
    ∧ (failbit file1 = false →
       ∀ k, k < 48 → 0x4C + 131 * k + 128 ≤ length (contents file1) →
            take 128 (drop (128 * k) data1) = window (contents file1) k)
    ∧ (failbit file2 = false →
       ∀ k, k < 48 → 0x4C + 131 * k + 128 ≤ length (contents file2) →
            take 128 (drop (128 * k) data2) = window (contents file2) k).
Proof.
  destruct (read_files_loop_total 48 0x4C 0x4C file1 file2 [] [] w)
    as (file1' & file2' & t1 & t2 & w' & Hrun & Ht1 & Ht2 & Hcout & Hfs & _ & Hk1 & Hk2).
  exists file1', file2', t1, t2, w'. split; [exact Hrun|].
  split; [unfold size; rewrite Ht1; reflexivity|].
  split; [unfold size; rewrite Ht2; reflexivity|].
  split; [done|]. split; [done|].
  split; intros Hfail k Hk Hin; [by apply Hk1 | by apply Hk2].
Qed.

Lemma extractor_never_fails_witness :
  let file1 := Ifstream sample_bank_A 0 false false in
  let file2 := Ifstream short_bank 0 false false in
  ∃ file1' file2' data1 data2 w',
    read_files file1 file2 [] [] (sample_world None None None [])
    = Ret (file1', file2', data1, data2) w'
    ∧ size data1 = 6144%Z ∧ size data2 = 6144%Z
    ∧ take 128 (drop (128 * 47) data1) = window sample_bank_A 47.
Proof.
  intros file1 file2.
  destruct (extractor_never_fails file1 file2 (sample_world None None None []))
    as (file1' & file2' & data1 & data2 & w' & Hrun & Hs1 & Hs2 & _ & _ & Hk1 & _).
  exists file1', file2', data1, data2, w'.
  split; [exact Hrun|]. split; [exact Hs1|]. split; [exact Hs2|].
  apply (Hk1 eq_refl 47).
  - lia.
  - vm_compute. lia.
Defined.

(** C7. When the first 7 bytes of an input file are not the signature of
    its bank, the validation of that file fails with the invalid-signature
    error; the run ends with a failure status before anything is extracted
    or transcoded, and no file is written.  The error printed is the one
    of this file as soon as its validation is reached (always for bank A,
    and for bank B once bank A has passed). *)
Theorem invalid_signature_rejected (w : world) (bank : filename) (f : list Z) :
  bank ≠ Patfile → fs w bank = Some f → 7 ≤ length f →
  take 7 f ≠ signature_of bank →
  (∀ header w0, fs w0 bank = Some f →
     validate_bank bank (signature_of bank) header w0
     = Exit EXIT_FAILURE (log (InvalidSignature bank) w0))
  ∧ (∃ w', main 4 w = Exit EXIT_FAILURE w' ∧ fs w' = fs w)
  ∧ (bank = Bankfile1 ∨ (∃ f1, valid_bank w Bankfile1 bank_A_signature f1) →
     ∃ w', main 4 w = Exit EXIT_FAILURE w'
           ∧ cout w' = cout w ++ [Banner; InvalidSignature bank]
           ∧ fs w' = fs w).
Proof.
  intros Hbank Hfs Hlen Hsig.
  assert (∀ header w0, fs w0 bank = Some f →
            validate_bank bank (signature_of bank) header w0
            = Exit EXIT_FAILURE (log (InvalidSignature bank) w0)) as Hv.
  { intros header w0 Hfs0. apply (validate_bank_bad_signature _ _ _ _ f); try done.
    by destruct bank. }
  split; [exact Hv|].
  destruct bank; [| |done]; cbn [signature_of] in *.
  - destruct (main_bank1_fails w (InvalidSignature Bankfile1)) as (w' & Hrun & Hcout & Hw).
    { by apply Hv. }
    split; [by exists w'|]. intros _. by exists w'.
  - split.
    + apply main_bank2_fails. intros header. eexists. by apply Hv.
    + intros [Hb|[f1 Hv1]]; [done|].
      apply (main_bank2_fails_after_bank1 w f1); [done|].
      intros header. by apply Hv.
Qed.

Lemma invalid_signature_rejected_witness :
  let bad := <[6 := 0x02%Z]> sample_bank_B in
  let w := sample_world (Some sample_bank_A) (Some bad) None [] in
  ∃ w', main 4 w = Exit EXIT_FAILURE w'
        ∧ cout w' = cout w ++ [Banner; InvalidSignature Bankfile2]
        ∧ fs w' = fs w.
Proof.
  intros bad w.
  destruct (invalid_signature_rejected w Bankfile2 bad) as (_ & _ & Hmain).
  - discriminate.
  - reflexivity.
  - vm_compute. lia.
  - vm_compute. discriminate.
  - apply Hmain. right. exists sample_bank_A.
    split; [reflexivity|]. split; [reflexivity|]. vm_compute. reflexivity.
Defined.

(** C8, as stated, fails: a file of 6362 zero bytes is rejected for its
    signature, and no message about its length is printed. *)
Lemma invalid_length_counterexample :
  let w := sample_world (Some zero_bank) (Some sample_bank_B) None [] in
  size zero_bank = 6362%Z
  ∧ ∃ w', main 4 w = Exit EXIT_FAILURE w'
          ∧ cout w' = [Banner; InvalidSignature Bankfile1].
Proof.
  intros w. split; [vm_compute; reflexivity|].
  eexists. split; vm_compute; reflexivity.
Qed.

(** C8, amended. When an input file carries the signature of its bank and
    its size is not 6363 bytes, the validation of that file fails with the
    invalid-length error, which reports the actual size; the run ends with
    a failure status and no file is written.  The error printed is the one
    of this file as soon as its validation is reached. *)
Theorem invalid_length_rejected (w : world) (bank : filename) (f : list Z) :
  bank ≠ Patfile → fs w bank = Some f →
  take 7 f = signature_of bank → size f ≠ 6363%Z →
  (∀ header w0, fs w0 bank = Some f →
     validate_bank bank (signature_of bank) header w0
     = Exit EXIT_FAILURE (log (InvalidLength bank (size f)) w0))
  ∧ (∃ w', main 4 w = Exit EXIT_FAILURE w' ∧ fs w' = fs w)
  ∧ (bank = Bankfile1 ∨ (∃ f1, valid_bank w Bankfile1 bank_A_signature f1) →
     ∃ w', main 4 w = Exit EXIT_FAILURE w'
           ∧ cout w' = cout w ++ [Banner; InvalidLength bank (size f)]
           ∧ fs w' = fs w).
Proof.
  intros Hbank Hfs Hsig Hsz.
  assert (∀ header w0, fs w0 bank = Some f →
            validate_bank bank (signature_of bank) header w0
            = Exit EXIT_FAILURE (log (InvalidLength bank (size f)) w0)) as Hv.
  { intros header w0 Hfs0. apply validate_bank_bad_length; try done.
    by destruct bank. }
  split; [exact Hv|].
  destruct bank; [| |done]; cbn [signature_of] in *.
  - destruct (main_bank1_fails w (InvalidLength Bankfile1 (size f)))
      as (w' & Hrun & Hcout & Hw).
    { by apply Hv. }
    split; [by exists w'|]. intros _. by exists w'.
  - split.
    + apply main_bank2_fails. intros header. eexists. by apply Hv.
    + intros [Hb|[f1 Hv1]]; [done|].
      apply (main_bank2_fails_after_bank1 w f1); [done|].
      intros header. by apply Hv.
Qed.

Lemma invalid_length_rejected_witness :
  let long := sample_bank_A ++ [0x00%Z] in
  let w := sample_world (Some long) (Some sample_bank_B) None [] in
  ∃ w', main 4 w = Exit EXIT_FAILURE w'
        ∧ cout w' = cout w ++ [Banner; InvalidLength Bankfile1 6364]
        ∧ fs w' = fs w.
Proof.
  intros long w.
  destruct (invalid_length_rejected w Bankfile1 long) as (_ & _ & Hmain).
  - discriminate.
  - reflexivity.
  - reflexivity.
  - vm_compute. discriminate.
  - apply Hmain. by left.
Defined.

(** * Further properties of the code *)

(** ** Files shorter than the signature *)

Section short_files.

Lemma read_short (f header : list Z) :
  length f < 7 →
  IStream.read (Ifstream f 0 false false) header 7
  = (Ifstream f (Z.of_nat (length f)) true true, f ++ drop (length f) header).
Proof.
  intros Hlen. unfold IStream.read, IStream.good.
  cbn [eofbit failbit gpos contents negb andb].
  change (Z.to_nat 0) with 0. rewrite drop_0, take_ge by lia.
  destruct (Nat.ltb_spec (length f) 7); [done|lia].
Qed.

Lemma validate_bank_short (name : filename) (signature header : list Z) (w : world)
    (f : list Z) :
  fs w name = Some f → length f < 7 →
  validate_bank name signature header w
  = Exit EXIT_FAILURE
      (log (if (memcmp (f ++ drop (length f) header) signature 7 =? 0)%Z
            then InvalidLength name (-1) else InvalidSignature name) w).
Proof.
  intros Hfs Hlen. rewrite (validate_bank_open name signature header w f Hfs).
  rewrite read_short by done.
  destruct (memcmp _ signature 7 =? 0)%Z; reflexivity.
Qed.

(** What bank A's validation leaves in [header] never matches bank B's
    signature when fewer than 7 bytes are read over it. *)
Lemma stale_header_mismatch (f rest : list Z) :
  length f < 7 →
  memcmp (f ++ drop (length f) (bank_A_signature ++ rest)) bank_B_signature 7 ≠ 0%Z.
Proof.
  intros Hlen Hcmp. apply memcmp_0_iff in Hcmp.
  - assert ((f ++ drop (length f) (bank_A_signature ++ rest)) !! 6 = Some 0%Z) as H6.
    { rewrite lookup_app_r by lia. rewrite lookup_drop.
      replace (length f + (6 - length f)) with 6 by lia. reflexivity. }
    assert (take 7 (f ++ drop (length f) (bank_A_signature ++ rest)) !! 6 = Some 0%Z) as H6'.
    { by rewrite lookup_take_lt by lia. }
    rewrite Hcmp in H6'. discriminate.
  - rewrite length_app, length_drop, length_app. cbn [length bank_A_signature]. lia.
  - cbn. lia.
Qed.

End short_files.

(** ** The verdict of the validation *)

Section verdict.

(** The validation of a file has two ends: the file is valid and the
    world is as before, or the run exits with one of three messages. *)
Lemma validate_bank_verdict (name : filename) (signature header : list Z) (w : world) :
  length signature = 7 →
  (∃ f, valid_bank w name signature f
        ∧ validate_bank name signature header w
          = Ret (Ifstream f 0 false false, signature ++ drop 7 header) w)
  ∨ ((∀ f, ¬ valid_bank w name signature f)
     ∧ ∃ m, validation_error name m
            ∧ validate_bank name signature header w = Exit EXIT_FAILURE (log m w)).
Proof.
  intros Hsig. destruct (fs w name) as [f|] eqn:Hfs.
  - destruct (decide (take 7 f = signature)) as [Htake|Htake].
    + destruct (decide (size f = 6363%Z)) as [Hsz|Hsz].
      * left. exists f. split; [done|]. by apply validate_bank_ok.
      * right. split.
        { intros f' (Hf' & _ & Hsz'). congruence. }
        exists (InvalidLength name (size f)). split; [right; right; eauto|].
        by apply validate_bank_bad_length.
    + right. split.
      { intros f' (Hf' & Htake' & _). congruence. }
      destruct (decide (7 ≤ length f)) as [Hlen|Hlen].
      * exists (InvalidSignature name). split; [right; by left|].
        by apply (validate_bank_bad_signature _ _ _ _ f).
      * eexists. split; [|apply (validate_bank_short _ _ _ _ f); [done|lia]].
        destruct (_ =? 0)%Z; [right; right; eauto | right; by left].
  - right. split.
    { intros f' (Hf' & _). congruence. }
    exists (MissingFile name). split; [by left|]. by apply validate_bank_missing.
Qed.

Lemma validation_error_not_size (name : filename) (m : message) :
  validation_error name m → size_diagnostic m = false.
Proof. by intros [->|[->|[z ->]]]. Qed.

End verdict.

(** ** The overwrite prompt *)

Section prompt.

Lemma may_write_or_declines (w : world) :
  may_write w ∨ (∃ old, fs w Patfile = Some old) ∧ declines w ∧ ¬ may_write w.
Proof.
  destruct (fs w Patfile) as [old|] eqn:Hfs; [|left; by left].
  destruct (cin w) as [|answer rest] eqn:Hcin.
  - right. split; [eauto|]. split.
    + intros answer rest. rewrite Hcin. discriminate.
    + intros [Hnone|(answer & rest & Hc & _)]; [congruence|]. rewrite Hcin in Hc. discriminate.
  - destruct (decide (answer = "Y")) as [->|HY].
    { left. right. exists "Y", rest. rewrite Hcin. eauto. }
    destruct (decide (answer = "y")) as [->|Hy].
    { left. right. exists "y", rest. rewrite Hcin. eauto. }
    right. split; [eauto|]. split.
    + intros a r. rewrite Hcin. intros [= <- <-]. done.
    + intros [Hnone|(a & r & Hc & Ha)]; [congruence|].
      rewrite Hcin in Hc. injection Hc as <- <-. by destruct Ha.
Qed.

(** The world after a confirmed overwrite. *)
Lemma check_output_file_wipes (name : filename) (w : world) old answer rest :
  fs w name = Some old → cin w = answer :: rest → answer = "Y" ∨ answer = "y" →
  ∃ w', check_output_file name w = Ret tt w'
        ∧ fs w' name = Some []
        ∧ (∀ other, other ≠ name → fs w' other = fs w other)
        ∧ cout w' = cout w ++ [OverwritePrompt; Wiped name]
        ∧ cin w' = rest.
Proof.
  intros Hfs Hcin Hans. eexists. split.
  - unfold check_output_file, bind, IStream.open. rewrite Hfs.
    cbn [IStream.good eofbit failbit negb andb print].
    unfold cin_read. cbn [log cin set_cout].
    rewrite Hcin. destruct Hans as [-> | ->]; reflexivity.
  - cbn [fs set_fs cout log set_cout set_cin cin]. split; [by rewrite filename_eqb_refl|].
    split; [intros other Hne; by rewrite filename_eqb_ne|].
    split; [by rewrite <- app_assoc | done].
Qed.

End prompt.

(** ** The run after the validation *)

Section pipeline.

Lemma after_size_check_expected (data1 data2 : list Z) (w : world) :
  size data1 = 6144%Z → after_size_check data1 data2 w = w.
Proof. intros Hsz. unfold after_size_check. by rewrite decide_True. Qed.

(** Everything that [transcode_and_write] does to the world. *)
Lemma transcode_and_write_effects (data1 data2 : list Z) (w : world) :
  length data1 = length data2 → Nat.Even (length data1) → fits_int (size data1) →
  ∃ w', transcode_and_write data1 data2 Patfile w = Ret 0%Z w'
        ∧ fs w' Patfile
          = Some ([0x89; 0x00]%Z ++ merge_pairs data1 ++ [0xAB; 0xCD]%Z ++ merge_pairs data2)
        ∧ (∀ other, other ≠ Patfile → fs w' other = fs (after_size_check data1 data2 w) other)
        ∧ cout w' = cout (after_size_check data1 data2 w) ++ [Success]
        ∧ cin w' = cin (after_size_check data1 data2 w).
Proof.
  intros Heq Hev Hfit. unfold transcode_and_write. unfold bind at 1.
  rewrite reorganize_data_correct by done.
  destruct (write_to_file_layout (merge_pairs data1) (merge_pairs data2) Patfile
              (after_size_check data1 data2 w))
    as (w' & Hrun & Hfs & Hother & Hcout & Hcin).
  exists (log Success w'). unfold bind at 1. rewrite Hrun.
  split; [done|]. split; [done|]. split; [done|].
  split; [|done]. cbn [cout log set_cout]. by rewrite Hcout.
Qed.

(** From the world [w1] that [check_output_file] left, the run of valid
    banks goes through to the end. *)
Lemma main_after_check (w w1 : world) (f1 f2 : list Z) :
  valid_bank w Bankfile1 bank_A_signature f1 →
  valid_bank w Bankfile2 bank_B_signature f2 →
  check_output_file Patfile (entered w) = Ret tt w1 →
  ∃ w', main 4 w = Ret 0%Z w'
        ∧ fs w' Patfile = Some (patch f1 f2)
        ∧ (∀ other, other ≠ Patfile → fs w' other = fs w1 other)
        ∧ cout w' = cout w1 ++ [Success]
        ∧ cin w' = cin w1.
Proof.
  intros Hv1 Hv2 Hcheck. rewrite (main_validated w f1 f2) by done.
  unfold bind at 1. rewrite Hcheck.
  destruct Hv1 as (_ & _ & Hs1), Hv2 as (_ & _ & Hs2).
  destruct (read_files_validated f1 f2 (Ifstream f1 0 false false)
              (Ifstream f2 0 false false) w1)
    as (file1' & file2' & w2 & Hread & Hcout2 & Hfs2 & Hcin2); [done..|].
  unfold bind at 1. rewrite Hread.
  pose proof (windows_size f1 Hs1) as Hl1. pose proof (windows_size f2 Hs2) as Hl2.
  assert (size (windows f1) = 6144%Z) as Hsz by (unfold size; rewrite Hl1; reflexivity).
  destruct (transcode_and_write_effects (windows f1) (windows f2) w2)
    as (w' & Hrun & Hfs & Hother & Hcout & Hcin).
  - congruence.
  - rewrite Hl1. exists (64 * 48). lia.
  - unfold fits_int, INT_MAX. lia.
  - rewrite after_size_check_expected in Hother, Hcout, Hcin by done.
    exists w'. split; [done|]. split; [done|].
    split; [intros other Hne; by rewrite Hother, Hfs2|].
    split; congruence.
Qed.

(** A successful run, with all that it prints and reads. *)
Lemma main_success (w : world) (f1 f2 : list Z) :
  valid_bank w Bankfile1 bank_A_signature f1 →
  valid_bank w Bankfile2 bank_B_signature f2 →
  may_write w →
  ∃ w', main 4 w = Ret 0%Z w'
        ∧ fs w' Patfile = Some (patch f1 f2)
        ∧ fs w' Bankfile1 = fs w Bankfile1 ∧ fs w' Bankfile2 = fs w Bankfile2
        ∧ ((fs w Patfile = None
            ∧ cout w' = cout w ++ [Banner; Success] ∧ cin w' = cin w)
           ∨ (∃ old answer rest,
                fs w Patfile = Some old ∧ cin w = answer :: rest
                ∧ cout w' = cout w ++ [Banner; OverwritePrompt; Wiped Patfile; Success]
                ∧ cin w' = rest)).
Proof.
  intros Hv1 Hv2 Hmay.
  destruct (fs w Patfile) as [old|] eqn:Hpat.
  - destruct Hmay as [Hnone|(answer & rest & Hcin & Hans)]; [congruence|].
    destruct (check_output_file_wipes Patfile (entered w) old answer rest)
      as (w1 & Hcheck & _ & Hother1 & Hcout1 & Hcin1); [done..|].
    destruct (main_after_check w w1 f1 f2 Hv1 Hv2 Hcheck)
      as (w' & Hrun & Hfs & Hother & Hcout & Hcin').
    exists w'. split; [done|]. split; [done|].
    split; [by rewrite Hother, Hother1|]. split; [by rewrite Hother, Hother1|].
    right. exists old, answer, rest. split; [done|]. split; [done|].
    split; [|congruence]. rewrite Hcout, Hcout1.
    cbn [cout entered alloc set_sp log set_cout]. by rewrite <- !app_assoc.
  - destruct (main_after_check w (entered w) f1 f2 Hv1 Hv2)
      as (w' & Hrun & Hfs & Hother & Hcout & Hcin').
    { by apply check_output_file_absent. }
    exists w'. split; [done|]. split; [done|].
    split; [by rewrite Hother|]. split; [by rewrite Hother|].
    left. split; [done|]. split; [|done]. rewrite Hcout.
    cbn [cout entered alloc set_sp log set_cout]. by rewrite <- !app_assoc.
Qed.

(** A run that the user stops at the prompt. *)
Lemma main_declined (w : world) (f1 f2 old : list Z) :
  valid_bank w Bankfile1 bank_A_signature f1 →
  valid_bank w Bankfile2 bank_B_signature f2 →
  fs w Patfile = Some old → declines w →
  ∃ w', main 4 w = Exit EXIT_FAILURE w'
        ∧ fs w' = fs w
        ∧ cout w' = cout w ++ [Banner; OverwritePrompt; Aborting]
        ∧ cin w' = tail (cin w).
Proof.
  intros Hv1 Hv2 Hpat Hdec. rewrite (main_validated w f1 f2) by done.
  unfold bind at 1.
  unfold check_output_file, bind, IStream.open.
  change (fs (entered w) Patfile) with (fs w Patfile). rewrite Hpat.
  cbn [IStream.good eofbit failbit negb andb print].
  unfold cin_read. cbn [log cin set_cout entered alloc set_sp].
  destruct (cin w) as [|answer rest] eqn:Hcin.
  - eexists. split; [reflexivity|]. split; [done|].
    cbn [cout log set_cout cin entered alloc set_sp]. split; [|by rewrite Hcin].
    by rewrite <- !app_assoc.
  - destruct (Hdec answer rest Hcin) as [HY Hy].
    destruct (String.eqb_spec answer "Y"); [done|].
    destruct (String.eqb_spec answer "y"); [done|].
    eexists. split; [reflexivity|]. split; [done|].
    cbn [cout log set_cout set_cin cin entered alloc set_sp]. split; [|done].
    by rewrite <- !app_assoc.
Qed.

End pipeline.

(** ** Every run of [main] *)

Section outcomes.

Lemma main_usage_run (argc : Z) (w : world) :
  argc ≠ 4%Z → main argc w = Ret 1%Z (log Usage (log Banner w)).
Proof.
  intros Hargc. unfold main, bind, print.
  destruct (Z.eqb_spec argc 4); [done|]. reflexivity.
Qed.

Lemma valid_bank_entered (w : world) (name : filename) (signature f : list Z) :
  valid_bank (entered w) name signature f ↔ valid_bank w name signature f.
Proof. done. Qed.

(** With three arguments on the command line, a run ends in one of three
    ways: a bank is rejected, the user declines, or the patch is written. *)
Lemma main_outcome (w : world) :
  (∃ m w', (validation_error Bankfile1 m ∨ validation_error Bankfile2 m)
           ∧ (∀ f1 f2, ¬ (valid_bank w Bankfile1 bank_A_signature f1
                          ∧ valid_bank w Bankfile2 bank_B_signature f2))
           ∧ main 4 w = Exit EXIT_FAILURE w'
           ∧ fs w' = fs w ∧ cout w' = cout w ++ [Banner; m])
  ∨ (∃ f1 f2 old w',
       valid_bank w Bankfile1 bank_A_signature f1
       ∧ valid_bank w Bankfile2 bank_B_signature f2
       ∧ fs w Patfile = Some old ∧ declines w ∧ ¬ may_write w
       ∧ main 4 w = Exit EXIT_FAILURE w'
       ∧ fs w' = fs w ∧ cout w' = cout w ++ [Banner; OverwritePrompt; Aborting])
  ∨ (∃ f1 f2 w',
       valid_bank w Bankfile1 bank_A_signature f1
       ∧ valid_bank w Bankfile2 bank_B_signature f2
       ∧ may_write w
       ∧ main 4 w = Ret 0%Z w'
       ∧ fs w' Patfile = Some (patch f1 f2)
       ∧ fs w' Bankfile1 = fs w Bankfile1 ∧ fs w' Bankfile2 = fs w Bankfile2
       ∧ (cout w' = cout w ++ [Banner; Success]
          ∨ cout w' = cout w ++ [Banner; OverwritePrompt; Wiped Patfile; Success])).
Proof.
  destruct (validate_bank_verdict Bankfile1 bank_A_signature
              (map (stack w) (seq (sp w) 7)) (entered w) eq_refl)
    as [(f1 & Hv1 & Hrun1)|(Hinv1 & m & Hm & Hrun1)].
  2: { left. exists m, (log m (entered w)). split; [by left|].
       split; [intros f1 f2 [Hv _]; by apply (Hinv1 f1)|].
       split; [by apply main_bank1_rejected|]. split; [done|].
       cbn [cout log set_cout entered alloc set_sp]. by rewrite <- app_assoc. }
  apply valid_bank_entered in Hv1.
  destruct (validate_bank_verdict Bankfile2 bank_B_signature
              (bank_A_signature ++ drop 7 (map (stack w) (seq (sp w) 7)))
              (entered w) eq_refl)
    as [(f2 & Hv2 & Hrun2)|(Hinv2 & m & Hm & Hrun2)].
  2: { left. exists m, (log m (entered w)). split; [by right|].
       split; [intros f1' f2 [_ Hv]; by apply (Hinv2 f2)|].
       split; [by apply (main_bank2_rejected w _ f1)|]. split; [done|].
       cbn [cout log set_cout entered alloc set_sp]. by rewrite <- app_assoc. }
  apply valid_bank_entered in Hv2.
  destruct (may_write_or_declines w) as [Hmay|([old Hold] & Hdec & Hnot)].
  - right. right.
    destruct (main_success w f1 f2 Hv1 Hv2 Hmay)
      as (w' & Hrun & Hfs & Hb1 & Hb2 & Hprinted).
    exists f1, f2, w'. do 7 (split; [done|]).
    destruct Hprinted as [(_ & Hcout & _)|(? & ? & ? & _ & _ & Hcout & _)]; eauto.
  - right. left.
    destruct (main_declined w f1 f2 old Hv1 Hv2 Hold Hdec) as (w' & Hrun & Hfs & Hcout & _).
    exists f1, f2, old, w'. done.
Qed.

End outcomes.

(** ** More on the transcoder and the extractor *)

Section transcoder_more.

Lemma nibble_merge_split (b : Z) :
  is_byte b → nibble_merge (b mod 16) (b / 16) = b.
Proof.
  unfold is_byte. intros Hb. rewrite nibble_merge_arith.
  rewrite Z.mod_mod by lia.
  rewrite (Z.mod_small (b / 16) 16).
  - pose proof (Z.div_mod b 16 ltac:(lia)). lia.
  - split; [apply Z.div_pos; lia | apply Z.div_lt_upper_bound; lia].
Qed.

Lemma merge_pairs_split (bytes : list Z) :
  Forall is_byte bytes → merge_pairs (nibble_split bytes) = bytes.
Proof.
  induction 1 as [|b bytes Hb _ IH]; [done|].
  cbn [nibble_split flat_map app merge_pairs]. fold (nibble_split bytes).
  by rewrite nibble_merge_split, IH.
Qed.

Lemma nibble_split_length (bytes : list Z) :
  length (nibble_split bytes) = 2 * length bytes.
Proof.
  induction bytes as [|b bytes IH]; [done|].
  cbn [nibble_split flat_map app length]. fold (nibble_split bytes). lia.
Qed.

Lemma nibble_merge_mod16 (h l : Z) :
  nibble_merge (h mod 16) (l mod 16) = nibble_merge h l.
Proof. rewrite !nibble_merge_arith. by rewrite !Z.mod_mod. Qed.

Lemma merge_pairs_mod16 (d : list Z) :
  merge_pairs (map (λ b, b mod 16)%Z d) = merge_pairs d.
Proof.
  induction d as [|x|x y l IH] using list_pair_ind; [done..|].
  cbn [map merge_pairs]. by rewrite nibble_merge_mod16, IH.
Qed.

Lemma merge_pairs_bytes (d : list Z) : Forall is_byte (merge_pairs d).
Proof.
  induction d as [|x|x y l IH] using list_pair_ind; [by constructor..|].
  cbn [merge_pairs]. constructor; [apply nibble_merge_range | done].
Qed.

Lemma reorganize_data_odd (data1 data2 : list Z) (w : world) :
  length data1 = length data2 → Nat.Odd (length data1) → fits_int (size data1) →
  reorganize_data data1 data2 w = Undefined.
Proof.
  intros Heq Hodd Hfit.
  rewrite reorganize_data_unexpected; [by apply denibblize_odd | done |].
  destruct Hodd as [m Hm]. unfold size. lia.
Qed.

End transcoder_more.

Section extractor_more.

(** The streams that the loop leaves when every window is inside both
    files: still good, just behind the last window. *)
Lemma read_files_loop_streams (count : nat) :
  ∀ (pos1 pos2 : nat) (file1 file2 : ifstream) (data1 data2 : list Z) (w : world),
    failbit file1 = false → failbit file2 = false →
    (∀ j, j < S count → pos1 + 131 * j + 128 ≤ length (contents file1)) →
    (∀ j, j < S count → pos2 + 131 * j + 128 ≤ length (contents file2)) →
    ∃ d1 d2 w',
      read_files_loop (S count) (Z.of_nat pos1) (Z.of_nat pos2) file1 file2 data1 data2 w
      = Ret (Ifstream (contents file1) (Z.of_nat (pos1 + 131 * count + 128)) false false,
             Ifstream (contents file2) (Z.of_nat (pos2 + 131 * count + 128)) false false,
             d1, d2) w'.
Proof.
  induction count as [|count IH]; intros pos1 pos2 file1 file2 data1 data2 w Hf1 Hf2 Hin1 Hin2.
  - cbn [read_files_loop]. rewrite !seekg_ok by done.
    unfold bind at 1, uninitialized at 1. unfold bind at 1, uninitialized at 1.
    pose proof (Hin1 0 ltac:(lia)). pose proof (Hin2 0 ltac:(lia)).
    rewrite !read_full_array by (rewrite ?uninitialized_length; lia).
    unfold ret. do 3 eexists. do 4 f_equal; f_equal; lia.
  - remember (S count) as n eqn:Hn. cbn [read_files_loop]. rewrite !seekg_ok by done.
    unfold bind at 1, uninitialized at 1. unfold bind at 1, uninitialized at 1.
    pose proof (Hin1 0 ltac:(lia)). pose proof (Hin2 0 ltac:(lia)).
    rewrite !read_full_array by (rewrite ?uninitialized_length; lia).
    replace (Z.of_nat pos1 + 131)%Z with (Z.of_nat (pos1 + 131)) by lia.
    replace (Z.of_nat pos2 + 131)%Z with (Z.of_nat (pos2 + 131)) by lia.
    subst n.
    edestruct (IH (pos1 + 131) (pos2 + 131)
                 (Ifstream (contents file1) (Z.of_nat (pos1 + 128)) false false)
                 (Ifstream (contents file2) (Z.of_nat (pos2 + 128)) false false))
      as (d1 & d2 & w' & Hrun); [done | done | ..].
    + intros j Hj. specialize (Hin1 (S j)). cbn [contents]. lia.
    + intros j Hj. specialize (Hin2 (S j)). cbn [contents]. lia.
    + exists d1, d2, w'. rewrite Hrun. cbn [contents]. do 4 f_equal; f_equal; lia.
Qed.

End extractor_more.

(** ** The properties *)

(** X1. With a number of command-line arguments other than three
    ([argc] other than 4), [main] prints the banner and the usage line and
    returns 1; it opens no file and reads nothing from standard input. *)
Theorem usage_on_wrong_argument_count (argc : Z) (w : world) :
  argc ≠ 4%Z →
  ∃ w', main argc w = Ret 1%Z w'
        ∧ cout w' = cout w ++ [Banner; Usage]
        ∧ fs w' = fs w ∧ cin w' = cin w.
Proof.
  intros Hargc. rewrite main_usage_run by done. eexists. split; [done|].
  cbn [cout fs cin log set_cout]. by rewrite <- app_assoc.
Qed.

Lemma usage_on_wrong_argument_count_witness :
  let w := sample_world (Some sample_bank_A) (Some sample_bank_B) None ["Y"] in
  ∃ w', main 2 w = Ret 1%Z w'
        ∧ cout w' = cout w ++ [Banner; Usage]
        ∧ fs w' = fs w ∧ cin w' = cin w.
Proof.
  intros w. apply (usage_on_wrong_argument_count 2 w). discriminate.
Defined.

(** X2. An input file that cannot be opened ends the run with a failure
    status and nothing written; the message names the missing file as soon
    as its validation is reached (always for bank A, for bank B once bank A
    has passed). *)
Theorem missing_file_rejected (w : world) (bank : filename) :
  bank ≠ Patfile → fs w bank = None →
  (∃ w', main 4 w = Exit EXIT_FAILURE w' ∧ fs w' = fs w)
  ∧ (bank = Bankfile1 ∨ (∃ f1, valid_bank w Bankfile1 bank_A_signature f1) →
     ∃ w', main 4 w = Exit EXIT_FAILURE w'
           ∧ cout w' = cout w ++ [Banner; MissingFile bank]
           ∧ fs w' = fs w).
Proof.
  intros Hbank Hfs.
  assert (∀ header, validate_bank bank (signature_of bank) header (entered w)
                    = Exit EXIT_FAILURE (log (MissingFile bank) (entered w))) as Hv.
  { intros header. by apply validate_bank_missing. }
  destruct bank; [| |done]; cbn [signature_of] in Hv.
  - destruct (main_bank1_fails w (MissingFile Bankfile1)) as (w' & Hrun & Hcout & Hw);
      [apply Hv|].
    split; [by exists w'|]. intros _. by exists w'.
  - split.
    + apply main_bank2_fails. intros header. eexists. apply Hv.
    + intros [Hb|[f1 Hv1]]; [done|].
      by apply (main_bank2_fails_after_bank1 w f1).
Qed.

Lemma missing_file_rejected_witness :
  let w := sample_world (Some sample_bank_A) None (Some [0x42%Z]) ["Y"] in
  ∃ w', main 4 w = Exit EXIT_FAILURE w'
        ∧ cout w' = cout w ++ [Banner; MissingFile Bankfile2]
        ∧ fs w' = fs w.
Proof.
  intros w.
  destruct (missing_file_rejected w Bankfile2) as [_ Hmain].
  - discriminate.
  - reflexivity.
  - apply Hmain. right. exists sample_bank_A.
    split; [reflexivity|]. split; [reflexivity|]. vm_compute. reflexivity.
Defined.

(** X3. An input file of fewer than 7 bytes is always rejected, with a
    failure status and nothing written.  As bank B (bank A having passed)
    the message is the invalid-signature one, because [header] still holds
    the signature of bank A; as bank A it is the invalid-signature one or,
    when the bytes that [header] happened to hold complete the signature,
    the invalid-length one with the size reported as -1. *)
Theorem short_file_rejected (w : world) (bank : filename) (f : list Z) :
  bank ≠ Patfile → fs w bank = Some f → length f < 7 →
  (∃ w', main 4 w = Exit EXIT_FAILURE w' ∧ fs w' = fs w)
  ∧ (bank = Bankfile1 →
     ∃ w' m, main 4 w = Exit EXIT_FAILURE w'
             ∧ cout w' = cout w ++ [Banner; m]
             ∧ (m = InvalidSignature Bankfile1 ∨ m = InvalidLength Bankfile1 (-1)))
  ∧ (bank = Bankfile2 → (∃ f1, valid_bank w Bankfile1 bank_A_signature f1) →
     ∃ w', main 4 w = Exit EXIT_FAILURE w'
           ∧ cout w' = cout w ++ [Banner; InvalidSignature Bankfile2]).
Proof.
  intros Hbank Hfs Hlen.
  destruct bank; [| |done].
  - pose proof (validate_bank_short Bankfile1 bank_A_signature
                  (map (stack w) (seq (sp w) 7)) (entered w) f Hfs Hlen) as Hv.
    destruct (main_bank1_fails w _ Hv) as (w' & Hrun & Hcout & Hw).
    split; [by exists w'|]. split; [|done].
    intros _. eexists w', _. split; [done|]. split; [exact Hcout|].
    destruct (_ =? 0)%Z; eauto.
  - split; [|split; [done|]].
    + apply main_bank2_fails. intros header. eexists.
      by apply (validate_bank_short _ _ _ _ f).
    + intros _ [f1 Hv1].
      pose proof (validate_bank_short Bankfile2 bank_B_signature
                    (bank_A_signature ++ drop 7 (map (stack w) (seq (sp w) 7)))
                    (entered w) f Hfs Hlen) as Hv.
      destruct (Z.eqb_spec (memcmp (f ++ drop (length f)
                   (bank_A_signature ++ drop 7 (map (stack w) (seq (sp w) 7))))
                   bank_B_signature 7) 0) as [Hcmp|_].
      { by apply stale_header_mismatch in Hcmp. }
      exists (log (InvalidSignature Bankfile2) (entered w)).
      split; [by apply (main_bank2_rejected w _ f1)|].
      cbn [cout log set_cout entered alloc set_sp]. by rewrite <- app_assoc.
Qed.

Lemma short_file_rejected_witness :
  let w := sample_world (Some sample_bank_A) (Some [0xF0; 0x43; 0x75]%Z) None [] in
  ∃ w', main 4 w = Exit EXIT_FAILURE w'
        ∧ cout w' = cout w ++ [Banner; InvalidSignature Bankfile2].
Proof.
  intros w.
  destruct (short_file_rejected w Bankfile2 [0xF0; 0x43; 0x75]%Z) as (_ & _ & Hmain).
  - discriminate.
  - reflexivity.
  - simpl. lia.
  - apply Hmain; [reflexivity|]. exists sample_bank_A.
    split; [reflexivity|]. split; [reflexivity|]. vm_compute. reflexivity.
Defined.

(** The size reported as -1: a bank A of three bytes, when the array
    [header] happened to hold zeros. *)
Example short_bank_A_reported_size :
  observe (main 4 (World (λ name, match name with
                                  | Bankfile1 => Some [0xF0; 0x43; 0x75]%Z
                                  | _ => None
                                  end) [] [] (λ _, 0%Z) 0))
  = (Some (inr EXIT_FAILURE), [Banner; InvalidLength Bankfile1 (-1)], None).
Proof. reflexivity. Qed.

(** X4. When both banks are valid, the output file exists and the answer
    to the prompt is anything but "Y" or "y" (or there is no answer), the
    run ends with a failure status after "Aborting operation...", and the
    existing output file keeps its contents, as does every other file. *)
Theorem overwrite_declined_keeps_file (w : world) (f1 f2 old : list Z) :
  valid_bank w Bankfile1 bank_A_signature f1 →
  valid_bank w Bankfile2 bank_B_signature f2 →
  fs w Patfile = Some old → declines w →
  ∃ w', main 4 w = Exit EXIT_FAILURE w'
        ∧ fs w' = fs w
        ∧ fs w' Patfile = Some old
        ∧ cout w' = cout w ++ [Banner; OverwritePrompt; Aborting]
        ∧ cin w' = tail (cin w).
Proof.
  intros Hv1 Hv2 Hold Hdec.
  destruct (main_declined w f1 f2 old Hv1 Hv2 Hold Hdec) as (w' & Hrun & Hfs & Hcout & Hcin).
  exists w'. split; [done|]. split; [done|]. split; [by rewrite Hfs|]. done.
Qed.

Lemma overwrite_declined_keeps_file_witness :
  let w := sample_world (Some sample_bank_A) (Some sample_bank_B) (Some [0x42%Z]) ["yes"] in
  ∃ w', main 4 w = Exit EXIT_FAILURE w'
        ∧ fs w' = fs w
        ∧ fs w' Patfile = Some [0x42%Z]
        ∧ cout w' = cout w ++ [Banner; OverwritePrompt; Aborting]
        ∧ cin w' = tail (cin w).
Proof.
  intros w.
  apply (overwrite_declined_keeps_file w sample_bank_A sample_bank_B [0x42%Z]).
  - split; [reflexivity|]. split; [reflexivity|]. vm_compute. reflexivity.
  - split; [reflexivity|]. split; [reflexivity|]. vm_compute. reflexivity.
  - reflexivity.
  - intros answer rest [= <- <-]. split; discriminate.
Defined.

(** X5. A run on two valid banks that may write its output ends with
    status 0.  It prints the banner and the success message and nothing
    else when the output file did not exist, leaving standard input
    untouched; when the file existed and the user confirmed, it prints the
    prompt and the "wiped" message in between and consumes exactly the
    answer. *)
Theorem successful_run_console (w : world) (f1 f2 : list Z) :
  valid_bank w Bankfile1 bank_A_signature f1 →
  valid_bank w Bankfile2 bank_B_signature f2 →
  may_write w →
  ∃ w', main 4 w = Ret 0%Z w'
        ∧ ((fs w Patfile = None
            ∧ cout w' = cout w ++ [Banner; Success] ∧ cin w' = cin w)
           ∨ (∃ old answer rest,
                fs w Patfile = Some old ∧ cin w = answer :: rest
                ∧ cout w' = cout w ++ [Banner; OverwritePrompt; Wiped Patfile; Success]
                ∧ cin w' = rest)).
Proof.
  intros Hv1 Hv2 Hmay.
  destruct (main_success w f1 f2 Hv1 Hv2 Hmay) as (w' & Hrun & _ & _ & _ & Hconsole).
  by exists w'.
Qed.

Lemma successful_run_console_witness :
  let w := sample_world (Some sample_bank_A) (Some sample_bank_B) (Some [0x42%Z]) ["Y"; "x"] in
  ∃ w', main 4 w = Ret 0%Z w'
        ∧ ((fs w Patfile = None
            ∧ cout w' = cout w ++ [Banner; Success] ∧ cin w' = cin w)
           ∨ (∃ old answer rest,
                fs w Patfile = Some old ∧ cin w = answer :: rest
                ∧ cout w' = cout w ++ [Banner; OverwritePrompt; Wiped Patfile; Success]
                ∧ cin w' = rest)).
Proof.
  intros w.
  apply (successful_run_console w sample_bank_A sample_bank_B).
  - split; [reflexivity|]. split; [reflexivity|]. vm_compute. reflexivity.
  - split; [reflexivity|]. split; [reflexivity|]. vm_compute. reflexivity.
  - right. exists "Y", ["x"]. split; [reflexivity|]. by left.
Defined.

(** X6. On every command line and in every state of the files and of
    standard input, [main] runs to its end without undefined behaviour (no
    vector is ever indexed out of range), and its status is 0 or 1. *)
Theorem main_always_ends (argc : Z) (w : world) :
  ∃ w', main argc w = Ret 0%Z w'
        ∨ main argc w = Ret 1%Z w'
        ∨ main argc w = Exit EXIT_FAILURE w'.
Proof.
  destruct (decide (argc = 4%Z)) as [->|Hargc].
  - destruct (main_outcome w)
      as [(m & w' & _ & _ & Hrun & _)
         |[(f1 & f2 & old & w' & _ & _ & _ & _ & _ & Hrun & _)
          |(f1 & f2 & w' & _ & _ & _ & Hrun & _)]]; exists w'; auto.
  - eexists. right. left. by apply main_usage_run.
Qed.

(** The ways in which a run can end, with what it leaves. *)
Lemma main_ended (argc : Z) (w w' : world) (code : Z) :
  ended (main argc w) code w' →
  (code = 1%Z ∧ fs w' = fs w
   ∧ ∃ printed, cout w' = cout w ++ printed
                ∧ Forall (λ m, size_diagnostic m = false) printed)
  ∨ (code = 0%Z ∧ argc = 4%Z
     ∧ (∃ f1 f2, valid_bank w Bankfile1 bank_A_signature f1
                 ∧ valid_bank w Bankfile2 bank_B_signature f2
                 ∧ may_write w
                 ∧ fs w' Patfile = Some (patch f1 f2))
     ∧ fs w' Bankfile1 = fs w Bankfile1 ∧ fs w' Bankfile2 = fs w Bankfile2
     ∧ ∃ printed, cout w' = cout w ++ printed
                  ∧ Forall (λ m, size_diagnostic m = false) printed).
Proof.
  intros Hend. destruct (decide (argc = 4%Z)) as [->|Hargc].
  - destruct (main_outcome w)
      as [(m & w1 & Hm & _ & Hrun & Hfs & Hcout)
         |[(f1 & f2 & old & w1 & _ & _ & _ & _ & _ & Hrun & Hfs & Hcout)
          |(f1 & f2 & w1 & Hv1 & Hv2 & Hmay & Hrun & Hfs & Hb1 & Hb2 & Hcout)]];
      rewrite Hrun in Hend; destruct Hend as [Hend|Hend]; try discriminate;
      injection Hend as <- <-.
    + left. split; [done|]. split; [done|]. eexists. split; [exact Hcout|].
      repeat constructor.
      destruct Hm as [Hm|Hm]; by apply validation_error_not_size in Hm.
    + left. split; [done|]. split; [done|]. eexists. split; [exact Hcout|].
      by repeat constructor.
    + right. split; [done|]. split; [done|]. split; [by exists f1, f2|].
      split; [done|]. split; [done|].
      destruct Hcout as [Hcout|Hcout]; eexists; (split; [exact Hcout|]);
        by repeat constructor.
  - rewrite main_usage_run in Hend by done.
    destruct Hend as [Hend|Hend]; [|discriminate]. injection Hend as <- <-.
    left. split; [done|]. split; [done|]. exists [Banner; Usage].
    split; [|by repeat constructor].
    cbn [cout log set_cout]. by rewrite <- app_assoc.
Qed.

(** X8. A run ends with status 0 only if there were three arguments, both
    bank files passed the validation (signature and 6363 bytes), and the
    output file was absent or the user confirmed that it be overwritten. *)
Theorem status_zero_only_on_valid_inputs (argc : Z) (w w' : world) :
  ended (main argc w) 0 w' →
  argc = 4%Z
  ∧ ∃ f1 f2, valid_bank w Bankfile1 bank_A_signature f1
             ∧ valid_bank w Bankfile2 bank_B_signature f2
             ∧ may_write w.
Proof.
  intros Hend.
  destruct (main_ended argc w w' 0 Hend)
    as [(Hcode & _)|(_ & Hargc & (f1 & f2 & Hv1 & Hv2 & Hmay & _) & _)];
    [discriminate|].
  split; [done|]. by exists f1, f2.
Qed.

Lemma status_zero_only_on_valid_inputs_witness :
  let w := sample_world (Some sample_bank_A) (Some sample_bank_B) (Some [0x42%Z]) ["y"] in
  ∃ w', main 4 w = Ret 0%Z w'
        ∧ ∃ f1 f2, valid_bank w Bankfile1 bank_A_signature f1
                   ∧ valid_bank w Bankfile2 bank_B_signature f2
                   ∧ may_write w.
Proof.
  intros w.
  destruct (main_converts w sample_bank_A sample_bank_B) as (w' & Hrun & _).
  - split; [reflexivity|]. split; [reflexivity|]. vm_compute. reflexivity.
  - split; [reflexivity|]. split; [reflexivity|]. vm_compute. reflexivity.
  - right. exists "y", []. split; [reflexivity|]. by right.
  - exists w'. split; [exact Hrun|].
    apply (status_zero_only_on_valid_inputs 4 w w'). left. exact Hrun.
Defined.

(** X9. A run that ends with a status other than 0 has written nothing:
    every file, the output file included, is as it was ("no partial
    output is ever written"). *)
Theorem failure_writes_nothing (argc : Z) (w w' : world) (code : Z) :
  ended (main argc w) code w' → code ≠ 0%Z → fs w' = fs w.
Proof.
  intros Hend Hcode.
  destruct (main_ended argc w w' code Hend) as [(_ & Hfs & _)|(Hzero & _)]; done.
Qed.

Lemma failure_writes_nothing_witness :
  let w := sample_world (Some sample_bank_A) None (Some [0x42%Z]) ["Y"] in
  let w' := log (MissingFile Bankfile2) (entered w) in
  fs w' = fs w.
Proof.
  intros w w'.
  apply (failure_writes_nothing 4 w w' EXIT_FAILURE).
  - right. vm_compute. reflexivity.
  - discriminate.
Defined.

(** X10. The two size checks of [reorganize_data] never fire in a run of
    [main]: whatever the files hold, neither "data vectors have different
    sizes" nor "data vectors not the expected size" is printed, because
    [read_files] always fills both vectors with 6144 bytes. *)
Theorem size_diagnostics_never_printed (argc : Z) (w w' : world) (code : Z) :
  ended (main argc w) code w' →
  ∃ printed, cout w' = cout w ++ printed
             ∧ Forall (λ m, size_diagnostic m = false) printed.
Proof.
  intros Hend.
  destruct (main_ended argc w w' code Hend)
    as [(_ & _ & Hprinted)|(_ & _ & _ & _ & _ & Hprinted)]; done.
Qed.

Lemma size_diagnostics_never_printed_witness :
  let w := sample_world (Some zero_bank) (Some sample_bank_B) None [] in
  let w' := log (InvalidSignature Bankfile1) (entered w) in
  ∃ printed, cout w' = cout w ++ printed
             ∧ Forall (λ m, size_diagnostic m = false) printed.
Proof.
  intros w w'.
  apply (size_diagnostics_never_printed 4 w w' EXIT_FAILURE).
  right. vm_compute. reflexivity.
Defined.

(** X11. On two vectors of the same odd size, [reorganize_data] runs
    into undefined behaviour: its last iteration reads [data[size]], one
    element past the end. *)
Theorem odd_size_reads_past_the_end (data1 data2 : list Z) (w : world) :
  length data1 = length data2 → Nat.Odd (length data1) → fits_int (size data1) →
  reorganize_data data1 data2 w = Undefined
  ∧ vec_at data1 (size data1 - 1 + 1) = None.
Proof.
  intros Heq Hodd Hfit. split; [by apply reorganize_data_odd|].
  replace (size data1 - 1 + 1)%Z with (Z.of_nat (length data1)) by (unfold size; lia).
  rewrite vec_at_nat. by apply lookup_ge_None_2.
Qed.

Lemma odd_size_reads_past_the_end_witness :
  reorganize_data [0x01; 0x02; 0x03]%Z [0x04; 0x05; 0x06]%Z
    (sample_world None None None []) = Undefined
  ∧ vec_at [0x01; 0x02; 0x03]%Z (size [0x01; 0x02; 0x03]%Z - 1 + 1) = None.
Proof.
  apply (odd_size_reads_past_the_end [0x01; 0x02; 0x03]%Z [0x04; 0x05; 0x06]%Z).
  - reflexivity.
  - exists 1. reflexivity.
  - unfold fits_int, size, INT_MAX. simpl. lia.
Defined.

(** X13. The transcoder undoes the nibble split: when each of two equally
    long byte sequences is sent as pairs (low nibble, high nibble),
    [reorganize_data] returns the two sequences themselves. *)
Theorem reorganize_data_inverts_nibble_split (bytes1 bytes2 : list Z) (w : world) :
  length bytes1 = length bytes2 →
  Forall is_byte bytes1 → Forall is_byte bytes2 →
  fits_int (2 * size bytes1) →
  ∃ w', reorganize_data (nibble_split bytes1) (nibble_split bytes2) w
        = Ret (bytes1, bytes2) w'.
Proof.
  intros Heq Hb1 Hb2 Hfit. eexists.
  rewrite reorganize_data_correct.
  - by rewrite !merge_pairs_split.
  - rewrite !nibble_split_length. lia.
  - rewrite nibble_split_length. by exists (length bytes1).
  - unfold fits_int, size in *. rewrite nibble_split_length. lia.
Qed.

Lemma reorganize_data_inverts_nibble_split_witness :
  ∃ w', reorganize_data (nibble_split [0x2F; 0x00; 0xFF]%Z)
          (nibble_split [0x10; 0x80; 0x7E]%Z) (sample_world None None None [])
        = Ret ([0x2F; 0x00; 0xFF]%Z, [0x10; 0x80; 0x7E]%Z) w'.
Proof.
  apply (reorganize_data_inverts_nibble_split [0x2F; 0x00; 0xFF]%Z [0x10; 0x80; 0x7E]%Z).
  - reflexivity.
  - repeat constructor; unfold is_byte; lia.
  - repeat constructor; unfold is_byte; lia.
  - unfold fits_int, size, INT_MAX. simpl. lia.
Defined.

(** X14. The transcoder looks at the low nibbles only: two pairs of
    buffers whose bytes agree modulo 16 give the same result, byte for
    byte, and every byte of the result is a value from 0 to 255. *)
Theorem reorganize_data_low_nibbles_only (data1 data2 data1' data2' : list Z)
    (w : world) :
  length data1 = length data2 → Nat.Even (length data1) → fits_int (size data1) →
  map (λ b, b mod 16)%Z data1' = map (λ b, b mod 16)%Z data1 →
  map (λ b, b mod 16)%Z data2' = map (λ b, b mod 16)%Z data2 →
  ∃ out1 out2 w',
    reorganize_data data1 data2 w = Ret (out1, out2) w'
    ∧ reorganize_data data1' data2' w = Ret (out1, out2) w'
    ∧ Forall is_byte out1 ∧ Forall is_byte out2.
Proof.
  intros Heq Hev Hfit Hm1 Hm2.
  assert (length data1' = length data1) as Hl1.
  { by rewrite <- (length_map (λ b, b mod 16)%Z data1'), Hm1, length_map. }
  assert (length data2' = length data2) as Hl2.
  { by rewrite <- (length_map (λ b, b mod 16)%Z data2'), Hm2, length_map. }
  exists (merge_pairs data1), (merge_pairs data2), (after_size_check data1 data2 w).
  split; [by apply reorganize_data_correct|]. split.
  - rewrite reorganize_data_correct.
    + rewrite <- (merge_pairs_mod16 data1'), <- (merge_pairs_mod16 data2'), Hm1, Hm2.
      rewrite !merge_pairs_mod16. unfold after_size_check, size.
      by rewrite Hl1, Hl2.
    + congruence.
    + by rewrite Hl1.
    + unfold fits_int, size in *. by rewrite Hl1.
  - split; apply merge_pairs_bytes.
Qed.

Lemma reorganize_data_low_nibbles_only_witness :
  ∃ out1 out2 w',
    reorganize_data [0x0F; 0x02]%Z [0x01; 0x0E]%Z (sample_world None None None [])
    = Ret (out1, out2) w'
    ∧ reorganize_data [0x3F; 0xA2]%Z [0xF1; 0x7E]%Z (sample_world None None None [])
      = Ret (out1, out2) w'
    ∧ Forall is_byte out1 ∧ Forall is_byte out2.
Proof.
  apply (reorganize_data_low_nibbles_only [0x0F; 0x02]%Z [0x01; 0x0E]%Z
           [0x3F; 0xA2]%Z [0xF1; 0x7E]%Z).
  - reflexivity.
  - exists 1. reflexivity.
  - unfold fits_int, size, INT_MAX. simpl. lia.
  - reflexivity.
  - reflexivity.
Defined.

(** X15. [read_files] appends: whatever the two vectors hold on entry is
    kept in front, and each grows by 6144 bytes, for all files and all
    states of the streams; nothing is printed and no file is written.  On
    two files of 6363 bytes the bytes added are the 48 windows and both
    streams stay good, at offset 6361, two bytes before the end. *)
Theorem read_files_appends (file1 file2 : ifstream) (data1 data2 : list Z) (w : world) :
  ∃ file1' file2' t1 t2 w',
    read_files file1 file2 data1 data2 w
    = Ret (file1', file2', data1 ++ t1, data2 ++ t2) w'
    ∧ size t1 = 6144%Z ∧ size t2 = 6144%Z
    ∧ cout w' = cout w ∧ fs w' = fs w
    ∧ (failbit file1 = false → size (contents file1) = 6363%Z →
       failbit file2 = false → size (contents file2) = 6363%Z →
       t1 = windows (contents file1) ∧ t2 = windows (contents file2)
       ∧ file1' = Ifstream (contents file1) 6361 false false
       ∧ file2' = Ifstream (contents file2) 6361 false false).
Proof.
  destruct (read_files_loop_total 48 0x4C 0x4C file1 file2 data1 data2 w)
    as (file1' & file2' & t1 & t2 & w' & Hrun & Ht1 & Ht2 & Hcout & Hfs & _).
  exists file1', file2', t1, t2, w'. split; [exact Hrun|].
  split; [unfold size; rewrite Ht1; reflexivity|].
  split; [unfold size; rewrite Ht2; reflexivity|].
  split; [done|]. split; [done|].
  intros Hf1 Hs1 Hf2 Hs2. unfold size in Hs1, Hs2.
  destruct (read_files_loop_in_bounds 48 0x4C 0x4C file1 file2 data1 data2 w)
    as (a1 & a2 & w1 & Hrun1 & _); [done | done | intros j Hj; lia | intros j Hj; lia |].
  destruct (read_files_loop_streams 47 0x4C 0x4C file1 file2 data1 data2 w)
    as (d1 & d2 & w2 & Hrun2); [done | done | intros j Hj; lia | intros j Hj; lia |].
  rewrite Hrun in Hrun1, Hrun2.
  injection Hrun1 as _ _ H1 H2 _. injection Hrun2 as -> -> _ _ _.
  apply app_inv_head in H1, H2. rewrite windows_eq. done.
Qed.

Lemma read_files_appends_witness :
  let file1 := Ifstream sample_bank_A 0 false false in
  let file2 := Ifstream sample_bank_B 0 false false in
  ∃ file1' file2' t1 t2 w',
    read_files file1 file2 [0x01%Z] [0x02%Z] (sample_world None None None [])
    = Ret (file1', file2', [0x01%Z] ++ t1, [0x02%Z] ++ t2) w'
    ∧ t1 = windows sample_bank_A ∧ t2 = windows sample_bank_B
    ∧ file1' = Ifstream sample_bank_A 6361 false false
    ∧ file2' = Ifstream sample_bank_B 6361 false false.
Proof.
  intros file1 file2.
  destruct (read_files_appends file1 file2 [0x01%Z] [0x02%Z] (sample_world None None None []))
    as (file1' & file2' & t1 & t2 & w' & Hrun & _ & _ & _ & _ & Hvalid).
  exists file1', file2', t1, t2, w'. split; [exact Hrun|].
  apply Hvalid.
  - reflexivity.
  - vm_compute. reflexivity.
  - reflexivity.
  - vm_compute. reflexivity.
Defined.

Section payload.


End payload.


